(** * The command auto-reply engine and the pi agent, embedded in Rocq

    Sources embedded here:
    - [src/agents/pi.ts]: [parsePiJson] and [piSpec]
      ([isInvocation], [buildArgs], [parseOutput]);
    - [unnamed/part_001], second file (the command-reply module of
      [auto-reply]): [appendThinkingCue] and [runCommandReply].

    Conventions of the embedding.
    - A JavaScript string is a [string]: one [ascii] per code unit.  The
      whitespace recognised by [trim] is the ASCII part of the ECMAScript
      white space and line terminator set, and [toLowerCase] and the [i]
      flag of a regular expression fold the ASCII letters.
    - [undefined] is [None]; a value of type [T | undefined] is an
      [option T].
    - A computation that may throw is a [completion]; [try]/[catch] is a
      match on it.
    - Logging ([logVerbose], [logger.info], [console.error]) has no effect
      on the value returned and is left out, and so is the wall-clock field
      [durationMs] of the reply meta. *)

From Stdlib Require Import Ascii String ZArith QArith DecimalString.
From stdpp Require Import base option list strings.

Close Scope Q_scope.
Set Warnings "-register-all".
Local Open Scope string_scope.
Local Open Scope list_scope.

(** ** Completions: a value, or a thrown error *)

Inductive completion (A : Type) : Type :=
| Returns (a : A)
| Throws (msg : string).
Arguments Returns {A} a.
Arguments Throws {A} msg.

#[global] Instance completion_ret : MRet completion := @Returns.
#[global] Instance completion_bind : MBind completion :=
  fun A B f m => match m with Returns a => f a | Throws e => Throws e end.

(** ** The JavaScript string operations the sources use *)

Module Js.

Definition is_ws (c : ascii) : bool :=
  match nat_of_ascii c with
  | 9 | 10 | 11 | 12 | 13 | 32 => true
  | _ => false
  end.

Fixpoint trimStart (s : string) : string :=
  match s with
  | "" => ""
  | String c s' => if is_ws c then trimStart s' else s
  end.

Fixpoint trimEnd (s : string) : string :=
  match s with
  | "" => ""
  | String c s' =>
      match trimEnd s' with
      | "" => if is_ws c then "" else String c ""
      | t => String c t
      end
  end.

(** [s.trim()] *)
Definition trim (s : string) : string := trimEnd (trimStart s).

(** Truthiness of a string: [Boolean(s)]. *)
Definition nonEmpty (s : string) : bool :=
  match s with "" => false | _ => true end.

(** [s.startsWith(p)] *)
Definition startsWith (p s : string) : bool := String.prefix p s.

(** [s.includes(needle)] *)
Fixpoint includes (needle s : string) : bool :=
  String.prefix needle s ||
  match s with
  | "" => false
  | String _ s' => includes needle s'
  end.

Definition lowerChar (c : ascii) : ascii :=
  let n := nat_of_ascii c in
  if (65 <=? n)%nat && (n <=? 90)%nat then ascii_of_nat (n + 32) else c.

(** [s.toLowerCase()] *)
Fixpoint toLowerCase (s : string) : string :=
  match s with
  | "" => ""
  | String c s' => String (lowerChar c) (toLowerCase s')
  end.

(** [s.slice(0, n)] *)
Definition slice0 (n : nat) (s : string) : string := String.substring 0 n s.

(** [parts.join(sep)] *)
Definition join (sep : string) (parts : list string) : string :=
  String.concat sep parts.

(** [[a, b].filter(Boolean)] on strings. *)
Definition filterBoolean (parts : list string) : list string :=
  List.filter nonEmpty parts.

(** [raw.split(/\n+/)]: [cur] holds the current piece reversed, [inSep]
    tells that the previous code unit was a newline of the separator
    being skipped. *)
Fixpoint splitNewlinesFrom (s : string) (cur : string) (inSep : bool)
  : list string :=
  match s with
  | "" => [String.rev cur]
  | String c s' =>
      if Ascii.eqb c "010"%char then
        if inSep then splitNewlinesFrom s' "" true
        else String.rev cur :: splitNewlinesFrom s' "" true
      else splitNewlinesFrom s' (String c cur) false
  end.

Definition splitNewlines (raw : string) : list string :=
  splitNewlinesFrom raw "" false.

(** [`${n}`] for an integer-valued number. *)
Definition numberToString (n : Z) : string :=
  NilZero.string_of_int (Z.to_int n).

(** [argv.splice(i, 0, ...items)] for [0 <= i]; a start past the end is
    clamped to the length, which [take] and [drop] do. *)
Definition spliceInsert {A} (i : nat) (items : list A) (l : list A)
  : list A :=
  take i l ++ items ++ drop i l.

(** [argv.splice(argv.length - 1, 0, ...items)]: a negative start counts
    from the end and is clamped to 0, so on the empty array the items are
    inserted at 0. *)
Definition spliceBeforeLast {A} (items : list A) (l : list A) : list A :=
  spliceInsert (length l - 1) items l.

End Js.

(** ** JSON values, as [JSON.parse] returns them *)

Module Json.

(** Numbers are carried along and never inspected by the code embedded
    here; they are integers in this model. *)
Inductive json : Type :=
| JNull
| JBool (b : bool)
| JNum (n : Z)
| JStr (s : string)
| JArr (items : list json)
| JObj (fields : list (string * json)).

Fixpoint assoc (k : string) (fields : list (string * json)) : option json :=
  match fields with
  | [] => None
  | (k', v) :: rest => if String.eqb k k' then Some v else assoc k rest
  end.

(** Property read [v.k] on a value that is neither [null] nor
    [undefined], for the keys the sources read ([type], [message],
    [role], [content], [text], [model], [provider], [stopReason],
    [usage]): only an object can hold them. *)
Definition prop (v : json) (k : string) : option json :=
  match v with
  | JObj fields => assoc k fields
  | _ => None
  end.

(** [v.k]: throws a [TypeError] on [null] and [undefined]. *)
Definition get (v : option json) (k : string) : completion (option json) :=
  match v with
  | None | Some JNull => Throws "TypeError: cannot read properties of null or undefined"
  | Some o => Returns (prop o k)
  end.

(** [v?.k]: [undefined] on [null] and [undefined]. *)
Definition optGet (v : option json) (k : string) : option json :=
  match v with
  | None | Some JNull => None
  | Some o => prop o k
  end.

(** Truthiness of a possibly [undefined] JSON value. *)
Definition truthy (v : option json) : bool :=
  match v with
  | None | Some JNull => false
  | Some (JBool b) => b
  | Some (JNum n) => negb (n =? 0)%Z
  | Some (JStr s) => Js.nonEmpty s
  | Some (JArr _) | Some (JObj _) => true
  end.

(** [v === s] for a string literal [s]. *)
Definition isString (v : option json) (s : string) : bool :=
  match v with
  | Some (JStr s') => String.eqb s' s
  | _ => false
  end.

(** [Array.isArray(v)] *)
Definition isArray (v : option json) : bool :=
  match v with
  | Some (JArr _) => true
  | _ => false
  end.

End Json.

(** ** Agent interface ([src/agents/types.ts] is not among the sources;
    the shapes below are the ones [pi.ts] and [command-reply.ts] use) *)

Module Agent.
Import Json.

Inductive AgentKind := claude | opencode | pi | codex | gemini.

Inductive Format := text_format | json_format.

(** [extra_summary] is [meta.extra?.summary], the only part of [extra]
    that is read. *)
Record AgentMeta := {
  model : option json;
  provider : option json;
  stopReason : option json;
  usage : option json;
  extra_summary : option string;
}.

Record AgentParseResult := {
  texts : list string;
  toolResults : option (list string);
  meta : option AgentMeta;
}.

Record BuildArgsContext := {
  ctx_argv : list string;
  ctx_bodyIndex : nat;
  ctx_isNewSession : bool;
  ctx_sessionId : option string;
  ctx_sendSystemOnce : bool;
  ctx_systemSent : bool;
  ctx_identityPrefix : option string;
  ctx_format : option Format;
}.

(** [parseOutput] may return nothing at all ([undefined]): the reply
    engine tests its result for that. *)
Record AgentSpec := {
  kind : AgentKind;
  isInvocation : list string -> bool;
  buildArgs : BuildArgsContext -> list string;
  parseOutput : string -> option AgentParseResult;
}.

End Agent.

(** ** [node:path] (POSIX flavour) *)

Module Path.

Definition isSlash (c : ascii) : bool := Ascii.eqb c "/"%char.

Fixpoint dropSlashes (s : string) : string :=
  match s with
  | "" => ""
  | String c s' => if isSlash c then dropSlashes s' else s
  end.

Fixpoint takeToSlash (s : string) : string :=
  match s with
  | "" => ""
  | String c s' => if isSlash c then "" else String c (takeToSlash s')
  end.

(** [path.basename(p)]: trailing slashes are dropped, the result is what
    follows the last remaining slash. *)
Definition basename (p : string) : string :=
  String.rev (takeToSlash (dropSlashes (String.rev p))).

(** [path.isAbsolute(p)] *)
Definition isAbsolute (p : string) : bool := Js.startsWith "/" p.

End Path.

(** ** [src/agents/pi.ts] *)

Module Pi.
Import Json.

(** The mutable locals of [parsePiJson]. *)
Record ParserState := {
  texts : list string;
  toolResults : list string;
  lastAssistant : option json;
  lastPushed : option string;
}.

Definition initialState : ParserState :=
  {| texts := []; toolResults := []; lastAssistant := None;
     lastPushed := None |}.

(** [c?.type === "text" && typeof c.text === "string"] *)
Definition isTextPart (c : json) : bool :=
  isString (optGet (Some c) "type") "text" &&
  match optGet (Some c) "text" with
  | Some (JStr _) => true
  | _ => false
  end.

(** [c.text] of a part that passed [isTextPart]. *)
Definition partText (c : json) : string :=
  match prop c "text" with
  | Some (JStr s) => s
  | _ => ""
  end.

(** [msg.content?.filter(...).map((c) => c.text).join("\n").trim()]:
    [undefined] when [content] is [null] or [undefined]; a [TypeError]
    when it is anything but an array, which has no [filter]. *)
Definition contentText (content : option json) : completion (option string) :=
  match content with
  | None | Some JNull => Returns None
  | Some (JArr items) =>
      Returns (Some (Js.trim (Js.join (String "010"%char "")
                                (map partText (List.filter isTextPart items)))))
  | Some _ => Throws "TypeError: msg.content?.filter is not a function"
  end.

(** [ev.type === "message" || ev.type === "message_end"] *)
Definition isCompleted (ty : option json) : bool :=
  isString ty "message" || isString ty "message_end".

(** [role && typeof role === "string" &&
     role.toLowerCase().includes("tool")] *)
Definition isToolRole (role : option json) : bool :=
  match role with
  | Some (JStr r) => Js.nonEmpty r && Js.includes "tool" (Js.toLowerCase r)
  | _ => false
  end.

Definition optionStringEqb (a b : option string) : bool :=
  match a, b with
  | Some x, Some y => String.eqb x y
  | None, None => true
  | _, _ => false
  end.

(** The body of the [try] block, after [JSON.parse]. *)
Definition handleEvent (st : ParserState) (ev : json)
  : completion ParserState :=
  ty ← get (Some ev) "type";
  let message := prop ev "message" in
  let role := optGet message "role" in
  let isToolResult := isCompleted ty && isToolRole role in
  let isAssistantMessage :=
    isCompleted ty && isString role "assistant" &&
    isArray (optGet message "content") in
  if negb isAssistantMessage && negb isToolResult then mret st
  else
    content ← get message "content";
    msgText ← contentText content;
    if isAssistantMessage then
      match msgText with
      | Some t =>
          if Js.nonEmpty t && negb (optionStringEqb (Some t) (lastPushed st))
          then mret {| texts := texts st ++ [t];
                       toolResults := toolResults st;
                       lastAssistant := message;
                       lastPushed := Some t |}
          else mret st
      | None => mret st
      end
    else if isToolResult && truthy content then
      toolText ← contentText content;
      match toolText with
      | Some t =>
          if Js.nonEmpty t
          then mret {| texts := texts st;
                       toolResults := toolResults st ++ [t];
                       lastAssistant := lastAssistant st;
                       lastPushed := lastPushed st |}
          else mret st
      | None => mret st
      end
    else mret st.

Section Parser.
(** [JSON.parse] of the runtime: a value, or a [SyntaxError]. *)
Variable JSON_parse : string -> completion json.

(** One iteration of the [for] loop: the [catch] ignores the line. *)
Definition step (st : ParserState) (line : string) : ParserState :=
  match ev ← JSON_parse line; handleEvent st ev with
  | Returns st' => st'
  | Throws _ => st
  end.

Definition parseLines (lines : list string) : ParserState :=
  fold_left step lines initialState.

(** [raw.split(/\n+/).filter((l) => l.trim().startsWith("{"))] *)
Definition candidateLines (raw : string) : list string :=
  List.filter (fun l => Js.startsWith "{" (Js.trim l)) (Js.splitNewlines raw).

Definition metaOf (msg : json) : Agent.AgentMeta :=
  {| Agent.model := prop msg "model";
     Agent.provider := prop msg "provider";
     Agent.stopReason := prop msg "stopReason";
     Agent.usage := prop msg "usage";
     Agent.extra_summary := None |}.

Definition resultOf (st : ParserState) : Agent.AgentParseResult :=
  {| Agent.texts := texts st;
     Agent.toolResults :=
       match toolResults st with [] => None | trs => Some trs end;
     Agent.meta :=
       match lastAssistant st, texts st with
       | Some msg, _ :: _ => Some (metaOf msg)
       | _, _ => None
       end |}.

Definition parsePiJson (raw : string) : Agent.AgentParseResult :=
  resultOf (parseLines (candidateLines raw)).

End Parser.

(** [base.replace(/\.(m?js)$/i, "")]: the pattern is anchored at the end,
    so it can only match the last four code units ([.mjs]) or the last
    three ([.js]), in any letter case. *)
Definition endsWithNoCase (suffix s : string) : bool :=
  let n := String.length s in
  let k := String.length suffix in
  (k <=? n)%nat &&
  String.eqb (Js.toLowerCase (String.substring (n - k) k s)) suffix.

Definition stripJsExtension (s : string) : string :=
  let n := String.length s in
  if endsWithNoCase ".mjs" s then String.substring 0 (n - 4) s
  else if endsWithNoCase ".js" s then String.substring 0 (n - 3) s
  else s.

(** [piSpec.isInvocation] *)
Definition isInvocation (argv : list string) : bool :=
  match argv with
  | [] => false
  | argv0 :: _ =>
      let base := stripJsExtension (Path.basename argv0) in
      String.eqb base "pi" || String.eqb base "tau"
  end.

(** [argv.includes(x)] *)
Definition argvIncludes (x : string) (argv : list string) : bool :=
  existsb (String.eqb x) argv.

(** [piSpec.buildArgs] *)
Definition buildArgs (ctx : Agent.BuildArgsContext) : list string :=
  let argv := Agent.ctx_argv ctx in
  let argv :=
    if negb (argvIncludes "-p" argv) && negb (argvIncludes "--print" argv)
    then Js.spliceBeforeLast ["-p"] argv else argv in
  let argv :=
    match Agent.ctx_format ctx with
    | Some Agent.json_format =>
        if negb (argvIncludes "--mode" argv) &&
           negb (existsb (fun a => String.eqb a "--mode") argv)
        then Js.spliceBeforeLast ["--mode"; "json"] argv else argv
    | _ => argv
    end in
  let bodyIndex := Agent.ctx_bodyIndex ctx in
  match argv !! bodyIndex with
  | Some existingBody =>
      if negb (Agent.ctx_sendSystemOnce ctx && Agent.ctx_systemSent ctx) &&
         Js.nonEmpty existingBody
      then
        <[bodyIndex :=
            Js.join (String "010"%char (String "010"%char ""))
              (Js.filterBoolean
                 (default "" (Agent.ctx_identityPrefix ctx) :: [existingBody]))]>
          argv
      else argv
  | None => argv
  end.

Definition piSpec (JSON_parse : string -> completion json) : Agent.AgentSpec :=
  {| Agent.kind := Agent.pi;
     Agent.isInvocation := isInvocation;
     Agent.buildArgs := buildArgs;
     Agent.parseOutput := fun raw => Some (parsePiJson JSON_parse raw) |}.

End Pi.

(** ** [src/auto-reply/command-reply.ts] *)

Module CommandReply.
Import Agent.

Inductive ThinkLevel := off | minimal | low | medium | high.
Inductive VerboseLevel := verbose_off | verbose_on.

Definition levelName (level : ThinkLevel) : string :=
  match level with
  | off => "off"
  | minimal => "minimal"
  | low => "low"
  | medium => "medium"
  | high => "high"
  end.

(** Modelled from the spec: [templating.ts] is not among the sources; the
    context holds the values of the tokens the template engine
    substitutes.  [runCommandReply] itself reads [SessionId] only. *)
Record TemplateContext := {
  Body : option string;
  BodyStripped : option string;
  From : option string;
  To : option string;
  MessageSid : option string;
  SessionId : option string;
  IsNewSession : option string;
  MediaPath : option string;
}.

(** The fields of [SessionConfig] that [runCommandReply] reads. *)
Record SessionConfig := {
  sessionArgNew : option (list string);
  sessionArgResume : option (list string);
  sessionArgBeforeBody : option bool;
}.

Record AgentConfig := {
  agent_kind : AgentKind;
  agent_format : option Format;
  agent_identityPrefix : option string;
}.

(** [CommandReplyConfig] ([mode] is ["command"]): the fields read here.
    [mediaMaxMb] is a positive number of megabytes, possibly
    fractional. *)
Record CommandReplyConfig := {
  command : option (list string);
  template : option string;
  cwd : option string;
  mediaUrl : option string;
  mediaMaxMb : option Q;
  session : option SessionConfig;
  agent : option AgentConfig;
}.

(** What the process runner resolves to. *)
Record CommandResult := {
  stdout : string;
  stderr : option string;
  code : option Z;
  signal : option string;
  killed : option bool;
}.

(** What a rejected run carries when the value it rejects with is not
    [null] or [undefined]: the fields the [catch] block reads, and
    [err_message], the text of [err.message] or [String(err)]. *)
Record RunError := {
  err_killed : option bool;
  err_signal : option string;
  err_stdout : option string;
  err_stderr : option string;
  err_message : string;
}.

(** [null] and [undefined]: the values on which reading a property
    throws a [TypeError]. *)
Inductive Nullish := js_null | js_undefined.

(** The awaited run resolves, or rejects with a value: one whose
    properties can be read, or [null] or [undefined]. *)
Inductive RunOutcome :=
| Resolved (r : CommandResult)
| Rejected (e : RunError)
| RejectedNullish (v : Nullish).

Record RunOptions := {
  opt_timeoutMs : Z;
  opt_cwd : option string;
}.

Record RpcRequest := {
  rpc_argv : list string;
  rpc_cwd : option string;
  rpc_prompt : string;
  rpc_timeoutMs : Z;
}.

(** [enqueue(run, { onWait })]: the outcome awaited, and the arguments of
    the last [onWait] call when there was one. *)
Record Queued := {
  waited : option (Z * Z);
  outcome : RunOutcome;
}.

Definition EnqueueRunner : Type := (unit -> RunOutcome) -> Queued.

Record CommandReplyParams := {
  reply : CommandReplyConfig;
  templatingCtx : TemplateContext;
  sendSystemOnce : bool;
  isNewSession : bool;
  isFirstTurnInSession : bool;
  systemSent : bool;
  timeoutMs : Z;
  timeoutSeconds : Z;
  commandRunner : list string -> RunOptions -> RunOutcome;
  enqueue : option EnqueueRunner;
  thinkLevel : option ThinkLevel;
  verboseLevel : option VerboseLevel;
}.

Record ReplyPayload := {
  text : option string;
  payload_mediaUrl : option string;
  mediaUrls : option (list string);
}.

Record CommandReplyMeta := {
  queuedMs : option Z;
  queuedAhead : option Z;
  exitCode : option Z;
  meta_signal : option string;
  meta_killed : option bool;
  agentMeta : option AgentMeta;
}.

(** [payloads] is optional in the type and set on every return. *)
Record CommandReplyResult := {
  payloads : list ReplyPayload;
  meta : CommandReplyMeta;
}.

Record ReplyItem := {
  item_text : string;
  item_media : option (list string);
}.

(** What [fs.stat(abs)] does: resolve to stats with a [size], or throw. *)
Inductive StatResult :=
| StatOk (size : Z)
| StatThrows.

Definition textPayload (t : string) : ReplyPayload :=
  {| text := Some t; payload_mediaUrl := None; mediaUrls := None |}.

(** [v !== undefined] *)
Definition defined {A} (v : option A) : bool :=
  match v with Some _ => true | None => false end.

(** Truthiness of an optional string. *)
Definition truthyString (s : option string) : bool :=
  match s with Some t => Js.nonEmpty t | None => false end.

(** The two pictographic prefixes of the messages, as the bytes the source
    file holds. *)
Definition warningSign : string := "‚ö†Ô∏è".
Definition toolSign : string := "üõ†Ô∏è".

(** [appendThinkingCue] *)
Definition appendThinkingCue (body : string) (level : option ThinkLevel)
  : string :=
  match level with
  | None | Some off => body
  | Some level =>
      let cue :=
        match level with
        | high => "ultrathink"
        | medium => "think harder"
        | low => "think hard"
        | minimal => "think"
        | off => ""
        end in
      Js.join " " (Js.filterBoolean [Js.trim body; cue])
  end.

(** The default session flags, by [agentCfg.kind]. *)
Definition defaultSessionArgs (k : AgentKind) : list string * list string :=
  match k with
  | claude => (["--session-id"; "{{SessionId}}"], ["--resume"; "{{SessionId}}"])
  | gemini => ([], ["--resume"; "{{SessionId}}"])
  | _ => (["--session"; "{{SessionId}}"], ["--session"; "{{SessionId}}"])
  end.

(** [argv.some((p, i) => p === "--thinking" ||
      (i > 0 && argv[i - 1] === "--thinking") ||
      p.startsWith("--thinking="))] *)
Definition hasThinkingFlag (argv : list string) : bool :=
  existsb
    (fun i =>
       match argv !! i with
       | Some p =>
           String.eqb p "--thinking" ||
           ((0 <? i)%nat &&
            match argv !! (i - 1)%nat with
            | Some q => String.eqb q "--thinking"
            | None => false
            end) ||
           Js.startsWith "--thinking=" p
       | None => false
       end)
    (seq 0 (length argv)).

(** The thinking block: the new [argv] and [bodyIndex]. *)
Definition applyThinking (agentKind : AgentKind)
    (thinkLevel : option ThinkLevel) (argv : list string) (bodyIndex : nat)
  : list string * nat :=
  match thinkLevel with
  | None | Some off => (argv, bodyIndex)
  | Some level =>
      match agentKind with
      | pi =>
          if negb (hasThinkingFlag argv)
          then (Js.spliceInsert bodyIndex ["--thinking"; levelName level] argv,
                (bodyIndex + 2)%nat)
          else (argv, bodyIndex)
      | _ =>
          match argv !! bodyIndex with
          | Some body =>
              if Js.nonEmpty body
              then (<[bodyIndex := appendThinkingCue body thinkLevel]> argv,
                    bodyIndex)
              else (argv, bodyIndex)
          | None => (argv, bodyIndex)
          end
      end
  end.

(** [copy.indexOf(x)], [None] for [-1]. *)
Fixpoint indexOf (x : string) (l : list string) : option nat :=
  match l with
  | [] => None
  | y :: rest => if String.eqb y x then Some 0%nat else S <$> indexOf x rest
  end.

(** The argv handed to the long-lived RPC process: the prompt body (last
    element) removed, the mode forced to [rpc]. *)
Definition rpcArgvOf (finalArgv : list string) : list string :=
  let promptIndex := (length finalArgv - 1)%nat in
  let copy := take promptIndex finalArgv ++ drop (S promptIndex) finalArgv in
  match indexOf "--mode" copy with
  | Some modeIdx =>
      if truthyString (copy !! S modeIdx)
      then take modeIdx copy ++ ["--mode"; "rpc"] ++ drop (modeIdx + 2) copy
      else copy
  | None => Js.spliceBeforeLast ["--mode"; "rpc"] copy
  end.

Definition isHttpUrl (url : string) : bool :=
  let u := Js.toLowerCase url in
  Js.startsWith "http://" u || Js.startsWith "https://" u.

Section Engine.
(** Collaborators that are not among the sources. *)
Variable applyTemplate : string -> TemplateContext -> string.
Variable splitMediaFromOutput : string -> string * option (list string).
Variable getAgentSpec : AgentKind -> AgentSpec.
Variable enqueueCommand : EnqueueRunner.
Variable runPiRpc : RpcRequest -> RunOutcome.
(** The file system seen by [fs.stat], and [path.resolve]. *)
Variable fs_stat : string -> StatResult.
Variable path_resolve : string -> string.

(** [argv] after templating and the insertion of the template prefix. *)
Definition templatedArgv (p : CommandReplyParams) (cmd : list string)
  : list string :=
  let ctx := templatingCtx p in
  let argv := map (fun part => applyTemplate part ctx) cmd in
  let templatePrefix :=
    match template (reply p) with
    | Some t =>
        if Js.nonEmpty t &&
           (negb (sendSystemOnce p) || isFirstTurnInSession p ||
            negb (systemSent p))
        then applyTemplate t ctx else ""
    | None => ""
    end in
  match argv with
  | argv0 :: rest =>
      if Js.nonEmpty templatePrefix then argv0 :: templatePrefix :: rest
      else argv
  | [] => argv
  end.

Definition agentCfgOf (p : CommandReplyParams) : AgentConfig :=
  default {| agent_kind := claude; agent_format := None;
             agent_identityPrefix := None |} (agent (reply p)).

(** The list of session flags to inject, templated. *)
Definition sessionArgList (p : CommandReplyParams) (s : SessionConfig)
  : list string :=
  let '(defaultNew, defaultResume) :=
    defaultSessionArgs (agent_kind (agentCfgOf p)) in
  map (fun a => applyTemplate a (templatingCtx p))
    (if isNewSession p then default defaultNew (sessionArgNew s)
     else default defaultResume (sessionArgResume s)).

(** The session block: [argv] with the session flags injected. *)
Definition injectSessionArgs (p : CommandReplyParams) (argv : list string)
  : list string :=
  match session (reply p) with
  | Some s =>
      let args := sessionArgList p s in
      match args with
      | [] => argv
      | _ =>
          let insertBeforeBody := default true (sessionArgBeforeBody s) in
          let insertAt :=
            if insertBeforeBody && (1 <? length argv)%nat
            then (length argv - 1)%nat else length argv in
          take insertAt argv ++ args ++ drop insertAt argv
      end
  | None => argv
  end.

(** [bodyIndex = Math.max(argv.length - 1, 0)] *)
Definition lastIndex (argv : list string) : nat := (length argv - 1)%nat.

(** [argv] and [bodyIndex] as they stand before the agent is consulted. *)
Definition preparedArgv (p : CommandReplyParams) (cmd : list string)
  : list string * nat :=
  let argv := injectSessionArgs p (templatedArgv p cmd) in
  applyThinking (agent_kind (agentCfgOf p)) (thinkLevel p) argv
    (lastIndex argv).

Definition finalArgvOf (p : CommandReplyParams) (cmd : list string)
  : list string :=
  let agentCfg := agentCfgOf p in
  let agent := getAgentSpec (agent_kind agentCfg) in
  let '(argv, bodyIndex) := preparedArgv p cmd in
  if isInvocation agent argv
  then buildArgs agent
         {| ctx_argv := argv;
            ctx_bodyIndex := bodyIndex;
            ctx_isNewSession := isNewSession p;
            ctx_sessionId := SessionId (templatingCtx p);
            ctx_sendSystemOnce := sendSystemOnce p;
            ctx_systemSent := systemSent p;
            ctx_identityPrefix := agent_identityPrefix agentCfg;
            ctx_format := agent_format agentCfg |}
  else argv.

(** The closure [run]. *)
Definition run (p : CommandReplyParams) (finalArgv : list string)
  : unit -> RunOutcome :=
  fun _ =>
    match agent_kind (agentCfgOf p) with
    | pi =>
        runPiRpc
          {| rpc_argv := rpcArgvOf finalArgv;
             rpc_cwd := cwd (reply p);
             rpc_prompt := default "" (finalArgv !! (length finalArgv - 1)%nat);
             rpc_timeoutMs := timeoutMs p |}
    | _ =>
        commandRunner p finalArgv
          {| opt_timeoutMs := timeoutMs p; opt_cwd := cwd (reply p) |}
    end.

Definition itemOfText (t : string) : ReplyItem :=
  let '(cleanedText, mediaFound) := splitMediaFromOutput t in
  {| item_text := cleanedText;
     item_media :=
       match mediaFound with
       | Some (_ :: _) => mediaFound
       | _ => None
       end |}.

(** [texts.map((t) => t.trim()).filter(Boolean)] *)
Definition trimmedNonEmpty (ts : list string) : list string :=
  Js.filterBoolean (map Js.trim ts).

(** [replyItems] as built from the trimmed stdout and the parse result. *)
Definition replyItemsOf (p : CommandReplyParams) (trimmed : string)
    (parsed : option AgentParseResult) : list ReplyItem :=
  let parserProvided := defined parsed in
  let parsedTexts :=
    match parsed with Some r => trimmedNonEmpty (texts r) | None => [] end in
  let parsedToolResults :=
    match parsed with
    | Some r => trimmedNonEmpty (default [] (toolResults r))
    | None => []
    end in
  let fromTexts := map itemOfText parsedTexts in
  let fromTools :=
    match verboseLevel p with
    | Some verbose_on =>
        map (fun tr => itemOfText (toolSign +:+ " " +:+ tr)) parsedToolResults
    | _ => []
    end in
  let replyItems := fromTexts ++ fromTools in
  let replyItems :=
    match replyItems with
    | [] =>
        if Js.nonEmpty trimmed && negb parserProvided then
          let item := itemOfText trimmed in
          if Js.nonEmpty (item_text item) || defined (item_media item)
          then [item] else []
        else []
    | _ => replyItems
    end in
  match replyItems with
  | [] =>
      let summary := m ← (r ← parsed; Agent.meta r); extra_summary m in
      [ {| item_text :=
             "(command produced no output" +:+
             (match summary with
              | Some m => if Js.nonEmpty m then "; " +:+ m else ""
              | None => ""
              end) +:+ ")";
           item_media := None |} ]
  | _ => replyItems
  end.

(** The loop over [mediaUrls] under a cap of [maxBytes]. *)
Fixpoint filterMedia (maxBytes : Q) (urls : list string) : list string :=
  match urls with
  | [] => []
  | url :: rest =>
      if isHttpUrl url then url :: filterMedia maxBytes rest
      else
        let abs := if Path.isAbsolute url then url else path_resolve url in
        match fs_stat abs with
        | StatOk size =>
            if Qle_bool (inject_Z size) maxBytes
            then url :: filterMedia maxBytes rest
            else filterMedia maxBytes rest
        | StatThrows => url :: filterMedia maxBytes rest
        end
  end.

(** [reply.mediaMaxMb] when it is truthy. *)
Definition mediaCap (cfg : CommandReplyConfig) : option Q :=
  match mediaMaxMb cfg with
  | Some m => if Qeq_bool m 0 then None else Some m
  | None => None
  end.

(** [item.media ?? mediaFromCommand ??
     (reply.mediaUrl ? [reply.mediaUrl] : undefined)]; [mediaFromCommand]
    is never assigned. *)
Definition candidateMedia (cfg : CommandReplyConfig) (item : ReplyItem)
  : option (list string) :=
  match item_media item with
  | Some m => Some m
  | None =>
      match mediaUrl cfg with
      | Some u => if Js.nonEmpty u then Some [u] else None
      | None => None
      end
  end.

(** The media of one reply item, after the cap. *)
Definition mediaOfItem (cfg : CommandReplyConfig) (item : ReplyItem)
  : option (list string) :=
  let mediaUrls := candidateMedia cfg item in
  match mediaUrls, mediaCap cfg with
  | Some ((_ :: _) as urls), Some m =>
      Some (filterMedia (m * 1024 * 1024)%Q urls)
  | _, _ => mediaUrls
  end.

Definition payloadOfItem (cfg : CommandReplyConfig) (item : ReplyItem)
  : option ReplyPayload :=
  let mediaUrls := mediaOfItem cfg item in
  if Js.nonEmpty (item_text item) ||
     match mediaUrls with Some (_ :: _) => true | _ => false end
  then Some {| text := if Js.nonEmpty (item_text item)
                       then Some (item_text item) else None;
               payload_mediaUrl := urls ← mediaUrls; head urls;
               mediaUrls := mediaUrls |}
  else None.

Definition codeText (c : option Z) : string :=
  match c with Some n => Js.numberToString n | None => "unknown" end.

(** The [try] block after the awaited run has resolved. *)
Definition onResolved (p : CommandReplyParams) (agent : AgentSpec)
    (q : option (Z * Z)) (r : CommandResult) : CommandReplyResult :=
  let trimmed := Js.trim (stdout r) in
  let parsed :=
    if Js.nonEmpty trimmed then parseOutput agent trimmed else None in
  let replyItems := replyItemsOf p trimmed parsed in
  let meta :=
    {| queuedMs := fst <$> q; queuedAhead := snd <$> q;
       exitCode := code r; meta_signal := signal r;
       meta_killed := killed r; agentMeta := r ← parsed; Agent.meta r |} in
  if negb (default 0 (code r) =? 0)%Z then
    let partialOut :=
      if Js.nonEmpty trimmed
      then String "010" (String "010" "") +:+ "Output: " +:+
           Js.slice0 500 trimmed +:+
           (if (500 <? String.length trimmed)%nat then "..." else "")
      else "" in
    let errorText :=
      warningSign +:+ " Command exited with code " +:+ codeText (code r) +:+
      (match signal r with
       | Some s => if Js.nonEmpty s then " (" +:+ s +:+ ")" else ""
       | None => ""
       end) +:+ partialOut in
    {| payloads := [textPayload errorText]; meta := meta |}
  else if default false (killed r) && negb (truthyString (signal r)) then
    let errorText :=
      warningSign +:+ " Command was killed before completion (exit code " +:+
      codeText (code r) +:+ ")" in
    {| payloads := [textPayload errorText]; meta := meta |}
  else
    {| payloads := omap (payloadOfItem (reply p)) replyItems;
       meta := meta |}.

(** [timeoutHit] of the [catch] block. *)
Definition timeoutHit (e : RunError) : bool :=
  bool_decide (err_killed e = Some true) ||
  bool_decide (err_signal e = Some "SIGKILL").

Definition timeoutText (p : CommandReplyParams) (e : RunError) : string :=
  let baseMsg :=
    "Command timed out after " +:+
    (Js.numberToString (timeoutSeconds p) +:+ "s" +:+
     (match cwd (reply p) with
      | Some d => if Js.nonEmpty d then " (cwd: " +:+ d +:+ ")" else ""
      | None => ""
      end) +:+ ". Try a shorter prompt or split the request.") in
  let partial := Js.trim <$> err_stdout e in
  let partialSnippet :=
    match partial with
    | Some s =>
        if Js.nonEmpty s && (800 <? String.length s)%nat
        then Some (Js.slice0 800 s +:+ "...") else partial
    | None => None
    end in
  match partialSnippet with
  | Some s =>
      if Js.nonEmpty s
      then baseMsg +:+ String "010" (String "010" "") +:+
           "Partial output before timeout:" +:+ String "010" "" +:+ s
      else baseMsg
  | None => baseMsg
  end.

(** The [catch] block. *)
Definition onRejected (p : CommandReplyParams) (q : option (Z * Z))
    (e : RunError) : CommandReplyResult :=
  let meta :=
    {| queuedMs := fst <$> q; queuedAhead := snd <$> q;
       exitCode := None; meta_signal := err_signal e;
       meta_killed := err_killed e; agentMeta := None |} in
  if timeoutHit e
  then {| payloads := [textPayload (timeoutText p e)]; meta := meta |}
  else {| payloads :=
            [textPayload (warningSign +:+ " Command failed: " +:+ err_message e)];
          meta := meta |}.

(** The [TypeError] of [anyErr.killed] on [null] or [undefined]. *)
Definition nullishTypeError (v : Nullish) : string :=
  "TypeError: Cannot read properties of " +:+
  match v with js_null => "null" | js_undefined => "undefined" end +:+
  " (reading 'killed')".

(** [await enqueue(run, { onWait })] *)
Definition enqueuedRun (p : CommandReplyParams) (cmd : list string) : Queued :=
  default enqueueCommand (enqueue p) (run p (finalArgvOf p cmd)).

(** [runCommandReply]; the [catch] block reads [anyErr.killed] first, and
    that throws when the run rejected with [null] or [undefined]. *)
Definition runCommandReply (p : CommandReplyParams)
  : completion CommandReplyResult :=
  match command (reply p) with
  | None | Some [] => Throws "reply.command is required for mode=command"
  | Some cmd =>
      let agent := getAgentSpec (agent_kind (agentCfgOf p)) in
      let queued := enqueuedRun p cmd in
      match outcome queued with
      | Resolved r => Returns (onResolved p agent (waited queued) r)
      | Rejected e => Returns (onRejected p (waited queued) e)
      | RejectedNullish v => Throws (nullishTypeError v)
      end
  end.

End Engine.

End CommandReply.

(** ** Vocabulary of the properties proved below *)

Module Props.
Import Json.

(** A completed message event: [type] is ["message"] or
    ["message_end"]. *)
Definition completedEvent (ev : json) : Prop :=
  prop ev "type" = Some (JStr "message") \/
  prop ev "type" = Some (JStr "message_end").

(** A completed assistant message [msg] carried by [ev]: role
    ["assistant"], array content. *)
Definition assistantMessage (ev msg : json) : Prop :=
  completedEvent ev /\ prop ev "message" = Some msg /\
  prop msg "role" = Some (JStr "assistant") /\
  exists items, prop msg "content" = Some (JArr items).

(** A completed message whose role contains ["tool"], in any letter
    case. *)
Definition toolMessage (ev msg : json) : Prop :=
  completedEvent ev /\ prop ev "message" = Some msg /\
  exists r, prop msg "role" = Some (JStr r) /\
            Js.includes "tool" (Js.toLowerCase r) = true.

(** The text of a message with array content: its text parts joined by
    newlines, trimmed. *)
Definition messageText (msg : json) : option string :=
  match prop msg "content" with
  | Some (JArr items) =>
      Some (Js.trim (Js.join (String "010"%char "")
                       (map Pi.partText (List.filter Pi.isTextPart items))))
  | _ => None
  end.

(** No code unit of [s] is a newline. *)
Fixpoint singleLine (s : string) : bool :=
  match s with
  | "" => true
  | String c s' => negb (Ascii.eqb c "010"%char) && singleLine s'
  end.

(** The parser state after an assistant text [t] of message [msg] was
    pushed, and after a tool text was pushed. *)
Definition pushText (st : Pi.ParserState) (msg : json) (t : string)
  : Pi.ParserState :=
  {| Pi.texts := Pi.texts st ++ [t];
     Pi.toolResults := Pi.toolResults st;
     Pi.lastAssistant := Some msg;
     Pi.lastPushed := Some t |}.

Definition pushTool (st : Pi.ParserState) (t : string) : Pi.ParserState :=
  {| Pi.texts := Pi.texts st;
     Pi.toolResults := Pi.toolResults st ++ [t];
     Pi.lastAssistant := Pi.lastAssistant st;
     Pi.lastPushed := Pi.lastPushed st |}.

(** The lines the parser looks at: after trimming they start with a
    brace. *)
Definition candidate (l : string) : bool := Js.startsWith "{" (Js.trim l).

(** A stream of lines as one string. *)
Definition streamOf (lines : list string) : string :=
  Js.join (String "010"%char "") lines.

Definition singleLines (lines : list string) : Prop :=
  Forall (fun l => singleLine l = true) lines.

(** The parser state [st] reached after [lines]: either nothing was
    pushed, or the stream splits at the last line that pushed a text, and
    [lastAssistant] is the message of that line. *)
Definition lastPush (JSON_parse : string -> completion json)
    (lines : list string) (st : Pi.ParserState) : Prop :=
  (Pi.lastAssistant st = None /\ Pi.texts st = []) \/
  (exists before line after ev msg t,
      lines = before ++ line :: after /\
      JSON_parse line = Returns ev /\ assistantMessage ev msg /\
      messageText msg = Some t /\
      Pi.texts (Pi.parseLines JSON_parse (before ++ [line])) =
        Pi.texts (Pi.parseLines JSON_parse before) ++ [t] /\
      Pi.texts st = Pi.texts (Pi.parseLines JSON_parse (before ++ [line])) /\
      Pi.lastAssistant st = Some msg).

(** A file-name extension the pi matcher strips: [.js] or [.mjs] in any
    letter case. *)
Definition jsExtension (ext : string) : Prop :=
  Js.toLowerCase ext = ".js" \/ Js.toLowerCase ext = ".mjs".

(** The cue word of a think level. *)
Definition cueWord (level : CommandReply.ThinkLevel) : string :=
  match level with
  | CommandReply.minimal => "think"
  | CommandReply.low => "think hard"
  | CommandReply.medium => "think harder"
  | CommandReply.high => "ultrathink"
  | CommandReply.off => ""
  end.

(** The default session flags of an agent kind, [sid] being the templated
    session id. *)
Definition sessionFlags (k : Agent.AgentKind) (isNew : bool) (sid : string)
  : list string :=
  match k, isNew with
  | Agent.claude, true => ["--session-id"; sid]
  | Agent.claude, false => ["--resume"; sid]
  | Agent.gemini, true => []
  | Agent.gemini, false => ["--resume"; sid]
  | _, _ => ["--session"; sid]
  end.

(** The run is one of the failures the reply engine reports: it was
    rejected with an error value (child-process error or timeout), exited
    with a non-zero code, or was killed without a signal. *)
Definition failedRun (o : CommandReply.RunOutcome) : Prop :=
  match o with
  | CommandReply.Rejected _ => True
  | CommandReply.RejectedNullish _ => False
  | CommandReply.Resolved r =>
      (exists c, CommandReply.code r = Some c /\ c <> 0%Z) \/
      (CommandReply.killed r = Some true /\
       CommandReply.truthyString (CommandReply.signal r) = false)
  end.

(** The run resolved and is treated as a success. *)
Definition succeededRun (r : CommandReply.CommandResult) : Prop :=
  (CommandReply.code r = None \/ CommandReply.code r = Some 0%Z) /\
  (CommandReply.killed r = Some true ->
   CommandReply.truthyString (CommandReply.signal r) = true).

(** The notice sent when a run produced nothing to send; [summary] is the
    summary of the parse result's meta, when there is one. *)
Definition noOutputNotice (summary : option string) : string :=
  match summary with
  | Some m =>
      if Js.nonEmpty m then "(command produced no output; " +:+ m +:+ ")"
      else "(command produced no output)"
  | None => "(command produced no output)"
  end.

(** The parse result says nothing: no text that is not blank and, when
    verbose is on, no tool result that is not blank. *)
Definition parsedNothing (verbose : option CommandReply.VerboseLevel)
    (r : Agent.AgentParseResult) : Prop :=
  CommandReply.trimmedNonEmpty (Agent.texts r) = [] /\
  (verbose = Some CommandReply.verbose_on ->
   CommandReply.trimmedNonEmpty (default [] (Agent.toolResults r)) = []).

(** The path [fs.stat] is asked about for a local media path. *)
Definition statPath (path_resolve : string -> string) (url : string)
  : string :=
  if Path.isAbsolute url then url else path_resolve url.

(** A local media path measured above the cap. *)
Definition measuredOver (fs_stat : string -> CommandReply.StatResult)
    (path_resolve : string -> string) (maxBytes : Q) (url : string) : Prop :=
  CommandReply.isHttpUrl url = false /\
  exists size, fs_stat (statPath path_resolve url) = CommandReply.StatOk size /\
               ~ (inject_Z size <= maxBytes)%Q.

End Props.

(** ** Concrete collaborators and inputs for the examples *)

Module Fixture.
Import Json Agent CommandReply.

Definition dq : string := String "034"%char "".

(** [JSON.stringify] on values whose strings need no escape. *)
Fixpoint render (j : json) : string :=
  match j with
  | JNull => "null"
  | JBool true => "true"
  | JBool false => "false"
  | JNum n => Js.numberToString n
  | JStr s => dq +:+ s +:+ dq
  | JArr items => "[" +:+ Js.join "," (map render items) +:+ "]"
  | JObj fields =>
      "{" +:+
      Js.join ","
        (map (fun kv => dq +:+ fst kv +:+ dq +:+ ":" +:+ render (snd kv)) fields)
      +:+ "}"
  end.

Definition textPart (t : string) : json :=
  JObj [("type", JStr "text"); ("text", JStr t)].

Definition messageBody (role : string) (parts : list json) (model : string)
  : json :=
  JObj [("role", JStr role); ("content", JArr parts); ("model", JStr model)].

Definition messageEvent (ty role : string) (parts : list json)
    (model : string) : json :=
  JObj [("type", JStr ty); ("message", messageBody role parts model)].

Definition helloEvent : json :=
  messageEvent "message_end" "assistant" [textPart "hello"] "pi-1".
Definition byeEvent : json :=
  messageEvent "message" "assistant" [textPart "bye"] "pi-2".
Definition toolEvent : json :=
  messageEvent "message_end" "toolResult" [textPart "ls: ok"] "pi-1".
Definition updateEvent : json :=
  messageEvent "message_update" "assistant" [textPart "hel"] "pi-1".

Definition knownEvents : list json :=
  [helloEvent; byeEvent; toolEvent; updateEvent].

(** A stand-in for [JSON.parse] on the lines of the examples: the inverse
    of [render] on [knownEvents], a [SyntaxError] elsewhere. *)
Definition parseKnown (line : string) : completion json :=
  match List.find (fun j => String.eqb (render j) (Js.trim line)) knownEvents with
  | Some j => Returns j
  | None => Throws "SyntaxError: unexpected token"
  end.

Definition nl : string := String "010"%char "".

(** Replace every occurrence of [token]; [skip] counts the code units of
    an occurrence still to pass. *)
Fixpoint replaceAll (token value : string) (skip : nat) (s : string)
  : string :=
  match s with
  | "" => ""
  | String c s' =>
      match skip with
      | S k => replaceAll token value k s'
      | O =>
          if Js.nonEmpty token && String.prefix token s
          then value +:+ replaceAll token value (String.length token - 1) s'
          else String c (replaceAll token value 0 s')
      end
  end.

(** Modelled from the spec: [templating.ts] is not among the sources.
    The recognised tokens are substituted, anything else is left
    verbatim; a token without a value becomes the empty string. *)
Definition applyTemplate (s : string) (ctx : TemplateContext) : string :=
  fold_left
    (fun acc tv => replaceAll (fst tv) (default "" (snd tv)) 0 acc)
    [("{{Body}}", Body ctx); ("{{BodyStripped}}", BodyStripped ctx);
     ("{{From}}", From ctx); ("{{To}}", To ctx);
     ("{{MessageSid}}", MessageSid ctx); ("{{SessionId}}", SessionId ctx);
     ("{{IsNewSession}}", IsNewSession ctx); ("{{MediaPath}}", MediaPath ctx)]
    s.

(** A stand-in for the media splitter on texts that carry no media
    reference: the text is returned as it is. *)
Definition splitNoMedia (t : string) : string * option (list string) :=
  (t, None).

(** Modelled from the spec: [command-queue.ts] is not among the sources.
    An idle queue runs the function at once and does not call
    [onWait]. *)
Definition idleQueue : EnqueueRunner :=
  fun run => {| waited := None; outcome := run tt |}.

(** The one agent among the sources stands for every kind. *)
Definition registry (k : AgentKind) : AgentSpec := Pi.piSpec parseKnown.

Definition resolveInWork (p : string) : string := "/work/" +:+ p.

(** A file system on which every [stat] fails. *)
Definition statFails (p : string) : StatResult := StatThrows.

(** A file system with one 3 MiB file and one 10-byte file. *)
Definition statTwoFiles (p : string) : StatResult :=
  if String.eqb p "/work/big.png" then StatOk 3145728
  else if String.eqb p "/tmp/small.png" then StatOk 10
  else StatThrows.

Definition ctx0 : TemplateContext :=
  {| Body := Some "hi"; BodyStripped := Some "hi"; From := Some "+1";
     To := Some "+2"; MessageSid := None; SessionId := Some "abc";
     IsNewSession := Some "true"; MediaPath := None |}.

Definition okResult (out : string) : CommandResult :=
  {| stdout := out; stderr := None; code := Some 0%Z; signal := None;
     killed := Some false |}.

Definition timeoutError (partial : option string) : RunError :=
  {| err_killed := Some true; err_signal := Some "SIGKILL";
     err_stdout := partial; err_stderr := None;
     err_message := "Command timed out" |}.

Definition replyConfig (cmd : option (list string)) (k : AgentKind)
  : CommandReplyConfig :=
  {| command := cmd; template := None; cwd := None; mediaUrl := None;
     mediaMaxMb := None; session := None;
     agent := Some {| agent_kind := k; agent_format := None;
                      agent_identityPrefix := None |} |}.

Definition paramsOf (cfg : CommandReplyConfig) (o : RunOutcome)
  : CommandReplyParams :=
  {| reply := cfg; templatingCtx := ctx0; sendSystemOnce := false;
     isNewSession := true; isFirstTurnInSession := true;
     systemSent := false; timeoutMs := 100; timeoutSeconds := 30;
     commandRunner := fun _ _ => o; enqueue := None;
     thinkLevel := None; verboseLevel := None |}.

(** [runCommandReply] with the collaborators above; the pi RPC transport
    answers with [o] as well. *)
Definition runWith (fs_stat : string -> StatResult)
    (cfg : CommandReplyConfig) (o : RunOutcome)
  : completion CommandReplyResult :=
  runCommandReply applyTemplate splitNoMedia registry idleQueue
    (fun _ => o) fs_stat resolveInWork (paramsOf cfg o).

(** The command lines, configurations and streams of the examples. *)
Definition piCommand : list string := ["pi"; "{{Body}}"].

Definition piConfig : CommandReplyConfig := replyConfig (Some piCommand) pi.

Definition cappedConfig (url : string) : CommandReplyConfig :=
  {| command := Some piCommand; template := None; cwd := None;
     mediaUrl := Some url; mediaMaxMb := Some 1%Q; session := None;
     agent := Some {| agent_kind := pi; agent_format := None;
                      agent_identityPrefix := None |} |}.

Definition helloRun : RunOutcome := Resolved (okResult (render helloEvent)).

Definition sessionConfig : CommandReplyConfig :=
  {| command := Some ["claude"; "-p"; "{{Body}}"]; template := None;
     cwd := None; mediaUrl := None; mediaMaxMb := None;
     session := Some {| sessionArgNew := None; sessionArgResume := None;
                        sessionArgBeforeBody := None |};
     agent := None |}.

Definition helloLine : string := render helloEvent.
Definition helloBody : json :=
  messageBody "assistant" [textPart "hello"] "pi-1".
Definition toolLine : string := render toolEvent.
Definition toolBody : json :=
  messageBody "toolResult" [textPart "ls: ok"] "pi-1".

Definition twoTurns : string :=
  Props.streamOf [helloLine; toolLine; render byeEvent].

Definition mixedMedia : list string :=
  ["big.png"; "/tmp/missing.png"; "http://example.org/a.png"; "/tmp/small.png"].

End Fixture.

(** ** Vocabulary of the invariants and laws *)

Module Invariants.
Import Json Props.

(** No two neighbours of the list are equal. *)
Definition noAdjacentRepeat (l : list string) : Prop :=
  forall i a b, l !! i = Some a -> l !! S i = Some b -> a <> b.

(** [t] is not empty and [trim] leaves it as it is. *)
Definition cleanText (t : string) : Prop := t <> "" /\ Js.trim t = t.

(** The first code unit of [s], if any, is not whitespace. *)
Definition headNotWs (s : string) : bool :=
  match s with
  | "" => true
  | String c _ => negb (Js.is_ws c)
  end.

(** Two chunks of output with a newline between them. *)
Definition chunks (a b : string) : string := a +:+ String "010"%char b.

(** What holds of every state the loop of the pi parser reaches. *)
Definition reachable (st : Pi.ParserState) : Prop :=
  Pi.lastPushed st = last (Pi.texts st) /\
  noAdjacentRepeat (Pi.texts st) /\
  Forall cleanText (Pi.texts st) /\
  Forall cleanText (Pi.toolResults st).

(** No code unit of [s] is a slash. *)
Fixpoint noSlash (s : string) : bool :=
  match s with
  | "" => true
  | String c s' => negb (Path.isSlash c) && noSlash s'
  end.

(** [{ ...ctx, argv }] *)
Definition withArgv (ctx : Agent.BuildArgsContext) (argv : list string)
  : Agent.BuildArgsContext :=
  {| Agent.ctx_argv := argv;
     Agent.ctx_bodyIndex := Agent.ctx_bodyIndex ctx;
     Agent.ctx_isNewSession := Agent.ctx_isNewSession ctx;
     Agent.ctx_sessionId := Agent.ctx_sessionId ctx;
     Agent.ctx_sendSystemOnce := Agent.ctx_sendSystemOnce ctx;
     Agent.ctx_systemSent := Agent.ctx_systemSent ctx;
     Agent.ctx_identityPrefix := Agent.ctx_identityPrefix ctx;
     Agent.ctx_format := Agent.ctx_format ctx |}.

(** The pi [buildArgs] has no identity prefix to put in front of the body:
    the system prompt was sent already, or there is no prefix. *)
Definition noIdentityPrefix (ctx : Agent.BuildArgsContext) : Prop :=
  (Agent.ctx_sendSystemOnce ctx = true /\ Agent.ctx_systemSent ctx = true) \/
  Js.nonEmpty (default "" (Agent.ctx_identityPrefix ctx)) = false.

(** [prefix + "\n\n" + arg] *)
Definition prefixed (prefix arg : string) : string :=
  prefix +:+ String "010"%char (String "010"%char arg).

(** The flags the pi [buildArgs] inserts before the last argument. *)
Definition insertedFlags (format : option Agent.Format) (argv : list string)
  : list string :=
  (if negb (Pi.argvIncludes "-p" argv) && negb (Pi.argvIncludes "--print" argv)
   then ["-p"] else []) ++
  (match format with
   | Some Agent.json_format =>
       if negb (Pi.argvIncludes "--mode" argv) then ["--mode"; "json"] else []
   | _ => []
   end).

(** The two flag steps of the pi [buildArgs]. *)
Definition withPrint (argv : list string) : list string :=
  if negb (Pi.argvIncludes "-p" argv) && negb (Pi.argvIncludes "--print" argv)
  then Js.spliceBeforeLast ["-p"] argv else argv.

Definition withMode (format : option Agent.Format) (argv : list string)
  : list string :=
  match format with
  | Some Agent.json_format =>
      if negb (Pi.argvIncludes "--mode" argv)
      then Js.spliceBeforeLast ["--mode"; "json"] argv else argv
  | _ => argv
  end.

(** The parameters with the template and the identity prefix removed. *)
Definition withoutSystemPrompt (p : CommandReply.CommandReplyParams)
  : CommandReply.CommandReplyParams :=
  let cfg := CommandReply.reply p in
  {| CommandReply.reply :=
       {| CommandReply.command := CommandReply.command cfg;
          CommandReply.template := None;
          CommandReply.cwd := CommandReply.cwd cfg;
          CommandReply.mediaUrl := CommandReply.mediaUrl cfg;
          CommandReply.mediaMaxMb := CommandReply.mediaMaxMb cfg;
          CommandReply.session := CommandReply.session cfg;
          CommandReply.agent :=
            (fun a =>
               {| CommandReply.agent_kind := CommandReply.agent_kind a;
                  CommandReply.agent_format := CommandReply.agent_format a;
                  CommandReply.agent_identityPrefix := None |})
            <$> CommandReply.agent cfg |};
     CommandReply.templatingCtx := CommandReply.templatingCtx p;
     CommandReply.sendSystemOnce := CommandReply.sendSystemOnce p;
     CommandReply.isNewSession := CommandReply.isNewSession p;
     CommandReply.isFirstTurnInSession := CommandReply.isFirstTurnInSession p;
     CommandReply.systemSent := CommandReply.systemSent p;
     CommandReply.timeoutMs := CommandReply.timeoutMs p;
     CommandReply.timeoutSeconds := CommandReply.timeoutSeconds p;
     CommandReply.commandRunner := CommandReply.commandRunner p;
     CommandReply.enqueue := CommandReply.enqueue p;
     CommandReply.thinkLevel := CommandReply.thinkLevel p;
     CommandReply.verboseLevel := CommandReply.verboseLevel p |}.

(** Thinking is off for this run. *)
Definition thinkingOff (p : CommandReply.CommandReplyParams) : Prop :=
  CommandReply.thinkLevel p = None \/
  CommandReply.thinkLevel p = Some CommandReply.off.

(** An agent whose parse results carry no tool results. *)
Definition withoutToolResults (a : Agent.AgentSpec) : Agent.AgentSpec :=
  {| Agent.kind := Agent.kind a;
     Agent.isInvocation := Agent.isInvocation a;
     Agent.buildArgs := Agent.buildArgs a;
     Agent.parseOutput :=
       fun raw =>
         (fun r => {| Agent.texts := Agent.texts r;
                      Agent.toolResults := None;
                      Agent.meta := Agent.meta r |})
         <$> Agent.parseOutput a raw |}.

(** A payload worth sending: a non-empty text, or no text and at least one
    media URL; [mediaUrl] is the first of [mediaUrls]. *)
Definition wellFormedPayload (payload : CommandReply.ReplyPayload) : Prop :=
  CommandReply.text payload <> Some "" /\
  (CommandReply.text payload = None ->
   exists u us, CommandReply.mediaUrls payload = Some (u :: us)) /\
  CommandReply.payload_mediaUrl payload =
    (urls ← CommandReply.mediaUrls payload; head urls).

End Invariants.

(** ** Inputs for the instances of the invariants and laws *)

Module Scenarios.
Import Json Agent CommandReply Fixture Invariants.

(** A pi context with an identity prefix and the body as last argument. *)
Definition prefixedCtx : BuildArgsContext :=
  {| ctx_argv := ["pi"; "hi"]; ctx_bodyIndex := 1; ctx_isNewSession := true;
     ctx_sessionId := Some "abc"; ctx_sendSystemOnce := false;
     ctx_systemSent := false; ctx_identityPrefix := Some "You are Clawd";
     ctx_format := None |}.

(** A run that exited with code 2 after a SIGTERM. *)
Definition exitResult : CommandResult :=
  {| stdout := " boom "; stderr := None; code := Some 2%Z;
     signal := Some "SIGTERM"; killed := Some false |}.

(** The executable was not found. *)
Definition spawnError : RunError :=
  {| err_killed := None; err_signal := None; err_stdout := None;
     err_stderr := None; err_message := "spawn pi ENOENT" |}.

(** A pi configuration with a template and an identity prefix. *)
Definition promptedConfig : CommandReplyConfig :=
  {| command := Some piCommand; template := Some "You are {{To}}";
     cwd := None; mediaUrl := None; mediaMaxMb := None; session := None;
     agent := Some {| agent_kind := pi; agent_format := None;
                      agent_identityPrefix := Some "You are Clawd" |} |}.

(** A later turn of a session whose system prompt was sent. *)
Definition laterTurn (cfg : CommandReplyConfig) (o : RunOutcome)
  : CommandReplyParams :=
  {| reply := cfg; templatingCtx := ctx0; sendSystemOnce := true;
     isNewSession := false; isFirstTurnInSession := false;
     systemSent := true; timeoutMs := 100; timeoutSeconds := 30;
     commandRunner := fun _ _ => o; enqueue := None;
     thinkLevel := None; verboseLevel := None |}.

(** A pi configuration that attaches [url] to every reply, without cap. *)
Definition mediaConfig (url : string) : CommandReplyConfig :=
  {| command := Some piCommand; template := None; cwd := None;
     mediaUrl := Some url; mediaMaxMb := None; session := None;
     agent := Some {| agent_kind := pi; agent_format := None;
                      agent_identityPrefix := None |} |}.

(** The payload of the text ["hello"] with the media [url]. *)
Definition helloWith (url : string) : ReplyPayload :=
  {| text := Some "hello"; payload_mediaUrl := Some url;
     mediaUrls := Some [url] |}.

(** A pi context without identity prefix, asking for JSON. *)
Definition plainCtx : BuildArgsContext :=
  {| ctx_argv := ["pi"; "hi"]; ctx_bodyIndex := 1; ctx_isNewSession := true;
     ctx_sessionId := Some "abc"; ctx_sendSystemOnce := false;
     ctx_systemSent := false; ctx_identityPrefix := None;
     ctx_format := Some json_format |}.

(** An assistant message whose only text is the path of a local file. *)
Definition bigPngEvent : json :=
  messageEvent "message_end" "assistant" [textPart "/work/big.png"] "pi-1".

(** A stand-in for [JSON.parse] that knows that event as well. *)
Definition parseWithBigPng (line : string) : completion json :=
  if String.eqb (render bigPngEvent) (Js.trim line) then Returns bigPngEvent
  else parseKnown line.

(** Modelled from the spec: the media splitter is not among the sources.
    A text that is nothing but the path of a media file is split into no
    prose and that path; any other text is returned as it is. *)
Definition splitBarePath (t : string) : string * option (list string) :=
  if String.eqb t "/work/big.png" then ("", Some [t]) else (t, None).

(** A run that was killed by SIGTERM after the agent had answered: no
    exit code, the signal, and the killed flag. *)
Definition killedResult : CommandResult :=
  {| stdout := render bigPngEvent; stderr := None; code := None;
     signal := Some "SIGTERM"; killed := Some true |}.

(** A pi configuration with a media cap of 1 MB. *)
Definition capOnlyConfig : CommandReplyConfig :=
  {| command := Some piCommand; template := None; cwd := None;
     mediaUrl := None; mediaMaxMb := Some 1%Q; session := None;
     agent := Some {| agent_kind := pi; agent_format := None;
                      agent_identityPrefix := None |} |}.

End Scenarios.

(** * Properties *)

(** ** Strings *)

Module JsFacts.

Lemma nonEmpty_true s : Js.nonEmpty s = true <-> s <> "".
Proof. destruct s; simpl; split; congruence. Qed.

Lemma nonEmpty_false s : Js.nonEmpty s = false <-> s = "".
Proof. destruct s; simpl; split; congruence. Qed.

Lemma append_cons c s t : String c s +:+ t = String c (s +:+ t).
Proof. reflexivity. Qed.

Lemma append_empty_l s : "" +:+ s = s.
Proof. reflexivity. Qed.

Lemma append_empty_r s : s +:+ "" = s.
Proof. induction s; [reflexivity | rewrite append_cons; congruence]. Qed.

Lemma append_assoc a b c : (a +:+ b) +:+ c = a +:+ (b +:+ c).
Proof. induction a; [reflexivity | rewrite !append_cons; congruence]. Qed.

Lemma length_append a b :
  String.length (a +:+ b) = (String.length a + String.length b)%nat.
Proof. induction a; [reflexivity | rewrite append_cons; simpl; congruence]. Qed.

Lemma prefix_append n b : String.prefix n (n +:+ b) = true.
Proof.
  induction n as [| c n IH]; [by destruct b|].
  rewrite append_cons. simpl. by destruct (ascii_dec c c).
Qed.

Lemma includes_here n s : String.prefix n s = true -> Js.includes n s = true.
Proof. intros H. destruct s; cbn [Js.includes]; rewrite H; reflexivity. Qed.

(** A string contains each of the pieces it is built from. *)
Lemma includes_append n a b : Js.includes n (a +:+ n +:+ b) = true.
Proof.
  induction a as [| c a IH].
  - rewrite append_empty_l. apply includes_here, prefix_append.
  - rewrite append_cons. cbn [Js.includes]. rewrite IH. apply orb_true_r.
Qed.

Lemma includes_append_r n a : Js.includes n (a +:+ n) = true.
Proof. rewrite <- (append_empty_r n) at 2. apply includes_append. Qed.

Lemma includes_append_l n b : Js.includes n (n +:+ b) = true.
Proof. apply includes_here, prefix_append. Qed.

Lemma prefix_empty s : String.prefix "" s = true.
Proof. by destruct s. Qed.

Lemma prefix_weaken n s b :
  String.prefix n s = true -> String.prefix n (s +:+ b) = true.
Proof.
  revert n. induction s as [| c s IH]; intros [| d n]; try done.
  - intros _. apply prefix_empty.
  - rewrite append_cons. simpl. destruct (ascii_dec d c); [apply IH | done].
Qed.

(** If the left part contains [n], so does the whole. *)
Lemma includes_weaken_r n a b :
  Js.includes n a = true -> Js.includes n (a +:+ b) = true.
Proof.
  induction a as [| c a IH].
  - destruct n; [intros _; apply includes_here, prefix_empty | discriminate].
  - cbn [Js.includes]. intros [H | H]%orb_true_iff.
    + by apply includes_here, prefix_weaken.
    + rewrite append_cons. cbn [Js.includes]. rewrite (IH H).
      apply orb_true_r.
Qed.

Lemma includes_weaken_l n a b :
  Js.includes n b = true -> Js.includes n (a +:+ b) = true.
Proof.
  intros H. induction a as [| c a IH]; [done|].
  rewrite append_cons. cbn [Js.includes]. rewrite IH. apply orb_true_r.
Qed.

Lemma substring_all s : String.substring 0 (String.length s) s = s.
Proof. induction s; simpl; congruence. Qed.

Lemma substring_split s i :
  (i <= String.length s)%nat ->
  s = String.substring 0 i s +:+ String.substring i (String.length s - i) s.
Proof.
  revert i. induction s as [| c s IH]; intros [| i] Hi; simpl in *; try lia.
  - done.
  - by rewrite substring_all.
  - rewrite append_cons. f_equal. apply IH. lia.
Qed.

Lemma slice0_length n s : (String.length (Js.slice0 n s) <= n)%nat.
Proof.
  unfold Js.slice0. revert s. induction n as [| n IH]; intros [| c s]; simpl;
    try lia.
  specialize (IH s). lia.
Qed.

Lemma slice0_short n s :
  (String.length s <= n)%nat -> Js.slice0 n s = s.
Proof.
  unfold Js.slice0. revert s. induction n as [| n IH]; intros [| c s]; simpl;
    try done; try lia.
  intros H. f_equal. apply IH. lia.
Qed.

(** [slice0 n s] is a prefix of [s]. *)
Lemma slice0_prefix n s : String.prefix (Js.slice0 n s) s = true.
Proof.
  unfold Js.slice0. revert s. induction n as [| n IH]; intros [| c s]; simpl;
    try done.
  by destruct (ascii_dec c c).
Qed.

Lemma rev_app_rev_app s a b :
  String.rev_app (String.rev_app s a) b = String.rev_app a (s +:+ b).
Proof.
  revert a b. induction s as [| c s IH]; intros a b; simpl; [done|].
  by rewrite IH, append_cons.
Qed.

Lemma rev_rev_app s : String.rev (String.rev_app s "") = s.
Proof.
  unfold String.rev. rewrite rev_app_rev_app. simpl. apply append_empty_r.
Qed.

(** A piece without newline is consumed whole by the splitter. *)
Lemma splitNewlinesFrom_singleLine s rest cur inSep :
  Props.singleLine s = true ->
  Js.splitNewlinesFrom (s +:+ rest) cur inSep =
  Js.splitNewlinesFrom rest (String.rev_app s cur)
    (if Js.nonEmpty s then false else inSep).
Proof.
  revert cur inSep.
  induction s as [| c s IH]; intros cur inSep; rewrite ?append_cons; simpl;
    [done|].
  intros [Hc Hs]%andb_true_iff. apply negb_true_iff in Hc. rewrite Hc.
  rewrite (IH _ _ Hs). by destruct s.
Qed.

End JsFacts.

(** ** The pi stream parser *)

Module PiFacts.
Import Json Props JsFacts.

Ltac unfold_monad :=
  unfold mbind, completion_bind, mret, completion_ret in *.

Lemma isString_true v s : isString v s = true <-> v = Some (JStr s).
Proof.
  destruct v as [[]|]; simpl; split; try congruence.
  - intros H. apply String.eqb_eq in H. congruence.
  - intros [= ->]. apply String.eqb_refl.
Qed.

Lemma isCompleted_true ev :
  Pi.isCompleted (prop ev "type") = true <-> completedEvent ev.
Proof.
  unfold Pi.isCompleted, completedEvent.
  rewrite orb_true_iff, !isString_true. tauto.
Qed.

Lemma optGet_Some v k x :
  optGet v k = Some x -> exists o, v = Some o /\ prop o k = Some x.
Proof.
  destruct v as [o|]; simpl; [|congruence].
  destruct o; simpl; try congruence. eauto.
Qed.

Lemma optGet_prop o k x : prop o k = Some x -> optGet (Some o) k = Some x.
Proof. destruct o; simpl; congruence. Qed.

Lemma get_prop o k x : prop o k = Some x -> get (Some o) k = Returns (prop o k).
Proof. destruct o; simpl; congruence. Qed.

Lemma isToolRole_true role :
  Pi.isToolRole role = true <->
  exists r, role = Some (JStr r) /\ Js.includes "tool" (Js.toLowerCase r) = true.
Proof.
  unfold Pi.isToolRole. split.
  - destruct role as [[]|]; try discriminate.
    intros [_ H]%andb_true_iff. eauto.
  - intros (r & -> & H). rewrite H, andb_true_r.
    destruct r; [discriminate H | reflexivity].
Qed.

Lemma contentText_array items :
  Pi.contentText (Some (JArr items)) =
  Returns (Some (Js.trim (Js.join (String "010"%char "")
                  (map Pi.partText (List.filter Pi.isTextPart items))))).
Proof. reflexivity. Qed.


Lemma assistant_not_tool :
  Js.includes "tool" (Js.toLowerCase "assistant") = false.
Proof. reflexivity. Qed.

Lemma handleEvent_inv st ev st' :
  Pi.handleEvent st ev = Returns st' ->
  st' = st \/
  (exists msg t,
      assistantMessage ev msg /\ messageText msg = Some t /\ t <> "" /\
      Pi.lastPushed st <> Some t /\ st' = pushText st msg t) \/
  (exists msg t,
      toolMessage ev msg /\ messageText msg = Some t /\ t <> "" /\
      st' = pushTool st t).
Proof.
  unfold Pi.handleEvent; unfold_monad.
  destruct ev as [| b | n | s | items | fields]; simpl;
    try (intros [= <-]; by left).
  destruct (Pi.isCompleted (assoc "type" fields)) eqn:Hty; simpl;
    [| intros [= <-]; by left].
  assert (Hev : completedEvent (JObj fields)) by (by apply isCompleted_true).
  destruct (assoc "message" fields) as [m|] eqn:Hm; simpl;
    [| intros [= <-]; by left].
  destruct m as [| b | n | s | items | mfields]; simpl;
    try (intros [= <-]; by left).
  destruct (isString (assoc "role" mfields) "assistant") eqn:Hrole; simpl.
  - apply isString_true in Hrole.
    destruct (assoc "content" mfields) as [c|] eqn:Hc; simpl.
    2:{ rewrite Hrole; simpl. intros [= <-]; by left. }
    destruct c as [| b | n | s | items | cfields]; simpl;
      try (rewrite Hrole; simpl; intros [= <-]; by left).
    set (t := Js.trim _).
    destruct (Js.nonEmpty t) eqn:Ht; simpl; [| intros [= <-]; by left].
    destruct (Pi.lastPushed st) as [y|] eqn:Hlast; simpl.
    + destruct (String.eqb t y) eqn:Hty'; simpl; intros [= <-]; [by left|].
      right; left. exists (JObj mfields), t. repeat split; eauto.
      * unfold messageText; simpl. by rewrite Hc.
      * by apply nonEmpty_true.
      * apply String.eqb_neq in Hty'. congruence.
    + intros [= <-]. right; left. exists (JObj mfields), t.
      repeat split; eauto.
      * unfold messageText; simpl. by rewrite Hc.
      * by apply nonEmpty_true.
  - destruct (Pi.isToolRole (assoc "role" mfields)) eqn:Htool; simpl;
      [| intros [= <-]; by left].
    apply isToolRole_true in Htool.
    destruct (assoc "content" mfields) as [c|] eqn:Hc; simpl;
      [| intros [= <-]; by left].
    destruct c as [| b | n | s | items | cfields]; simpl;
      try discriminate; try (intros [= <-]; by left).
    set (t := Js.trim _).
    destruct (Js.nonEmpty t) eqn:Ht; simpl; intros [= <-]; [| by left].
    right; right. exists (JObj mfields), t. repeat split; eauto.
    + unfold messageText; simpl. by rewrite Hc.
    + by apply nonEmpty_true.
Qed.

Lemma handleEvent_assistant st ev msg t :
  assistantMessage ev msg -> messageText msg = Some t ->
  Pi.handleEvent st ev =
  Returns (if Js.nonEmpty t &&
              negb (Pi.optionStringEqb (Some t) (Pi.lastPushed st))
           then pushText st msg t else st).
Proof.
  intros (Hev & Hm & Hrole & items & Hc) Ht.
  unfold messageText in Ht. rewrite Hc in Ht. injection Ht as <-.
  apply isCompleted_true in Hev.
  unfold Pi.handleEvent; unfold_monad.
  destruct ev; try discriminate Hm. simpl in *.
  rewrite Hev, Hm. simpl.
  destruct msg; try discriminate Hrole. simpl in *.
  rewrite Hrole, Hc. simpl.
  set (t := Js.trim _).
  destruct (Js.nonEmpty t); simpl; [| reflexivity].
  destruct (Pi.lastPushed st) as [y|]; simpl; [| reflexivity].
  by destruct (String.eqb t y).
Qed.

Lemma handleEvent_tool st ev msg t :
  toolMessage ev msg -> messageText msg = Some t ->
  Pi.handleEvent st ev =
  Returns (if Js.nonEmpty t then pushTool st t else st).
Proof.
  intros (Hev & Hm & r & Hrole & Hr) Ht.
  unfold messageText in Ht.
  destruct (prop msg "content") as [[| | | | items |]|] eqn:Hc;
    try discriminate Ht.
  injection Ht as <-.
  apply isCompleted_true in Hev.
  unfold Pi.handleEvent; unfold_monad.
  destruct ev; try discriminate Hm. simpl in *.
  rewrite Hev, Hm. simpl.
  destruct msg; try discriminate Hrole. simpl in *.
  rewrite Hrole, Hc. simpl.
  assert (Hna : (r =? "assistant")%string = false).
  { apply String.eqb_neq. intros ->. by rewrite assistant_not_tool in Hr. }
  rewrite Hna, Hr. simpl.
  assert (Hne : Js.nonEmpty r = true).
  { destruct r; [discriminate Hr | reflexivity]. }
  rewrite Hne. simpl.
  set (t := Js.trim _).
  by destruct (Js.nonEmpty t).
Qed.

Section PiParser.
Variable JSON_parse : string -> completion json.
Local Abbreviation step := (Pi.step JSON_parse).
Local Abbreviation parseLines := (Pi.parseLines JSON_parse).
Local Abbreviation parsePiJson := (Pi.parsePiJson JSON_parse).

Lemma step_malformed st line e :
  JSON_parse line = Throws e -> step st line = st.
Proof. intros H. unfold Pi.step; unfold_monad. by rewrite H. Qed.

Lemma step_inv st line :
  step st line = st \/
  (exists ev msg t,
      JSON_parse line = Returns ev /\ assistantMessage ev msg /\
      messageText msg = Some t /\ t <> "" /\ Pi.lastPushed st <> Some t /\
      step st line = pushText st msg t) \/
  (exists ev msg t,
      JSON_parse line = Returns ev /\ toolMessage ev msg /\
      messageText msg = Some t /\ t <> "" /\
      step st line = pushTool st t).
Proof.
  unfold Pi.step; unfold_monad.
  destruct (JSON_parse line) as [ev|e] eqn:Hp; [| by left].
  destruct (Pi.handleEvent st ev) as [st'|e] eqn:Hh; [| by left].
  apply handleEvent_inv in Hh as [-> | [(msg & t & H) | (msg & t & H)]].
  - by left.
  - right; left. exists ev, msg, t. destruct H as (?&?&?&?&->). done.
  - right; right. exists ev, msg, t. destruct H as (?&?&?&->). done.
Qed.

Lemma step_assistant st line ev msg t :
  JSON_parse line = Returns ev -> assistantMessage ev msg ->
  messageText msg = Some t ->
  step st line =
  if Js.nonEmpty t && negb (Pi.optionStringEqb (Some t) (Pi.lastPushed st))
  then pushText st msg t else st.
Proof.
  intros Hp Ha Ht. unfold Pi.step; unfold_monad. rewrite Hp.
  by rewrite (handleEvent_assistant st ev msg t Ha Ht).
Qed.

Lemma step_tool st line ev msg t :
  JSON_parse line = Returns ev -> toolMessage ev msg ->
  messageText msg = Some t ->
  step st line = if Js.nonEmpty t then pushTool st t else st.
Proof.
  intros Hp Ha Ht. unfold Pi.step; unfold_monad. rewrite Hp.
  by rewrite (handleEvent_tool st ev msg t Ha Ht).
Qed.

Lemma parseLines_snoc lines line :
  parseLines (lines ++ [line]) = step (parseLines lines) line.
Proof. unfold Pi.parseLines. by rewrite fold_left_app. Qed.

Lemma parseLines_app before after :
  parseLines (before ++ after) = fold_left step after (parseLines before).
Proof. unfold Pi.parseLines. by rewrite fold_left_app. Qed.

(** Dropping a line on which [JSON.parse] throws changes nothing. *)
Lemma parseLines_malformed before line after e :
  JSON_parse line = Throws e ->
  parseLines (before ++ line :: after) = parseLines (before ++ after).
Proof.
  intros H. rewrite !parseLines_app. simpl.
  by rewrite (step_malformed _ _ _ H).
Qed.

(** Tool results only grow along the stream. *)
Lemma toolResults_step_mono st line t :
  t ∈ Pi.toolResults st -> t ∈ Pi.toolResults (step st line).
Proof.
  intros Hin.
  destruct (step_inv st line) as [-> | [(?&?&?&_&_&_&_&_&->) | (?&?&?&_&_&_&_&->)]];
    simpl; auto.
  apply elem_of_app; by left.
Qed.

Lemma toolResults_fold_mono lines st t :
  t ∈ Pi.toolResults st -> t ∈ Pi.toolResults (fold_left step lines st).
Proof.
  revert st. induction lines as [| l ls IH]; simpl; intros st H; [done|].
  apply IH. by apply toolResults_step_mono.
Qed.

(** Every element of [texts] is the text of a completed assistant
    message of the stream. *)
Lemma texts_from_assistant lines t :
  t ∈ Pi.texts (parseLines lines) ->
  exists line ev msg,
    line ∈ lines /\ JSON_parse line = Returns ev /\
    assistantMessage ev msg /\ messageText msg = Some t.
Proof.
  induction lines as [| l ls IH] using rev_ind.
  - cbn. by intros ?%elem_of_nil.
  - rewrite parseLines_snoc.
    destruct (step_inv (parseLines ls) l)
      as [-> | [(ev&msg&t'&Hp&Ha&Ht&_&_&->) | (?&?&?&_&_&_&_&->)]]; simpl.
    + intros (line&ev&msg&?&?)%IH. exists line, ev, msg.
      split; [apply elem_of_app; by left | done].
    + intros [Hin | ->%list_elem_of_singleton]%elem_of_app.
      * destruct (IH Hin) as (line&ev'&msg'&?&?). exists line, ev', msg'.
        split; [apply elem_of_app; by left | done].
      * exists l, ev, msg. split; [| done].
        apply elem_of_app; right. by apply list_elem_of_singleton.
    + intros (line&ev&msg&?&?)%IH. exists line, ev, msg.
      split; [apply elem_of_app; by left | done].
Qed.

Lemma lastPush_parseLines lines : lastPush JSON_parse lines (parseLines lines).
Proof.
  induction lines as [| l ls IH] using rev_ind.
  - by left.
  - rewrite parseLines_snoc.
    destruct (step_inv (parseLines ls) l)
      as [-> | [(ev&msg&t&Hp&Ha&Ht&_&_&Hs) | (?&?&?&_&_&_&_&->)]].
    + destruct IH as [IH | (before&line&after&ev&msg&t&->&IH)]; [by left|].
      right. exists before, line, (after ++ [l]), ev, msg, t.
      split; [by rewrite <- app_assoc | done].
    + right. exists ls, l, [], ev, msg, t.
      rewrite parseLines_snoc, Hs. simpl. done.
    + destruct IH as [IH | (before&line&after&ev&msg&t&->&IH)]; [by left|].
      right. exists before, line, (after ++ [l]), ev, msg, t.
      split; [by rewrite <- app_assoc | done].
Qed.


(** On a stream of single lines, the parser looks at the lines that start
    with a brace, in order. *)
Lemma candidateLines_from lines b :
  singleLines lines ->
  List.filter candidate (Js.splitNewlinesFrom (streamOf lines) "" b) =
  List.filter candidate lines.
Proof.
  intros Hall. revert b.
  induction Hall as [| l ls Hl Hls IH]; intros b; [done|].
  destruct ls as [| l' ls].
  - unfold streamOf. cbn [Js.join String.concat].
    rewrite <- (append_empty_r l) at 1.
    rewrite (splitNewlinesFrom_singleLine _ _ _ _ Hl).
    cbn [Js.splitNewlinesFrom]. by rewrite rev_rev_app.
  - change (streamOf (l :: l' :: ls))
      with (l +:+ String "010"%char (streamOf (l' :: ls))).
    rewrite (splitNewlinesFrom_singleLine _ _ _ _ Hl).
    cbn [Js.splitNewlinesFrom Ascii.eqb Bool.eqb].
    destruct l as [| c l]; cbn [Js.nonEmpty].
    + destruct b; cbn; apply IH.
    + cbn [List.filter]. rewrite rev_rev_app, IH. done.
Qed.

Lemma candidateLines_stream lines :
  singleLines lines ->
  Pi.candidateLines (streamOf lines) = List.filter candidate lines.
Proof. apply candidateLines_from. Qed.

Lemma parsePiJson_stream lines :
  singleLines lines ->
  parsePiJson (streamOf lines) =
  Pi.resultOf (parseLines (List.filter candidate lines)).
Proof.
  intros H. unfold Pi.parsePiJson. by rewrite candidateLines_stream.
Qed.

Lemma singleLines_app l1 l2 :
  singleLines (l1 ++ l2) <-> singleLines l1 /\ singleLines l2.
Proof. apply Forall_app. Qed.

(** A second assistant message with the text just pushed adds nothing. *)
Lemma step_twice st l1 l2 ev1 ev2 m1 m2 t :
  JSON_parse l1 = Returns ev1 -> JSON_parse l2 = Returns ev2 ->
  assistantMessage ev1 m1 -> assistantMessage ev2 m2 ->
  messageText m1 = Some t -> messageText m2 = Some t -> t <> "" ->
  step (step st l1) l2 = step st l1.
Proof.
  intros Hp1 Hp2 Ha1 Ha2 Ht1 Ht2 Hne.
  apply nonEmpty_true in Hne.
  rewrite (step_assistant st l1 ev1 m1 t Hp1 Ha1 Ht1), Hne. cbn [andb].
  destruct (Pi.optionStringEqb (Some t) (Pi.lastPushed st)) eqn:He;
    cbn [negb].
  - by rewrite (step_assistant st l2 ev2 m2 t Hp2 Ha2 Ht2), Hne, He.
  - rewrite (step_assistant _ l2 ev2 m2 t Hp2 Ha2 Ht2), Hne. cbn.
    by rewrite String.eqb_refl.
Qed.

Lemma parseLines_pair l1 l2 ev1 ev2 m1 m2 t :
  JSON_parse l1 = Returns ev1 -> JSON_parse l2 = Returns ev2 ->
  assistantMessage ev1 m1 -> assistantMessage ev2 m2 ->
  messageText m1 = Some t -> messageText m2 = Some t -> t <> "" ->
  Pi.texts (parseLines [l1; l2]) = [t].
Proof.
  intros Hp1 Hp2 Ha1 Ha2 Ht1 Ht2 Hne.
  change (parseLines [l1; l2]) with (step (step Pi.initialState l1) l2).
  rewrite (step_twice _ l1 l2 ev1 ev2 m1 m2 t) by done.
  rewrite (step_assistant _ l1 ev1 m1 t Hp1 Ha1 Ht1).
  apply nonEmpty_true in Hne. by rewrite Hne.
Qed.

Lemma filter_candidate_app l1 l2 :
  List.filter candidate (l1 ++ l2) =
  List.filter candidate l1 ++ List.filter candidate l2.
Proof. apply List.filter_app. Qed.

End PiParser.

(** C4.  For every newline-delimited stream given to the pi parser:
    (1) every element of [texts] is the text of a completed assistant
    message ([type] "message" or "message_end", role "assistant", array
    content) on one of the lines; (2) a completed message whose role
    contains "tool", with a non-empty text, puts that text into
    [toolResults]; (3) two consecutive assistant messages with the same
    text add one element to [texts], not two, and alone they produce
    exactly one; (4) a line on which [JSON.parse] throws does not affect
    the result. *)
Theorem C4_pi_stream_parser (JSON_parse : string -> completion json) :
  (forall raw t,
      t ∈ Agent.texts (Pi.parsePiJson JSON_parse raw) ->
      exists line ev msg,
        line ∈ Pi.candidateLines raw /\ JSON_parse line = Returns ev /\
        assistantMessage ev msg /\ messageText msg = Some t) /\
  (forall before line after ev msg t,
      singleLines (before ++ line :: after) -> candidate line = true ->
      JSON_parse line = Returns ev -> toolMessage ev msg ->
      messageText msg = Some t -> t <> "" ->
      exists trs,
        Agent.toolResults
          (Pi.parsePiJson JSON_parse (streamOf (before ++ line :: after))) =
          Some trs /\ t ∈ trs) /\
  (forall before l1 l2 ev1 ev2 m1 m2 t,
      singleLines (before ++ [l1; l2]) ->
      candidate l1 = true -> candidate l2 = true ->
      JSON_parse l1 = Returns ev1 -> JSON_parse l2 = Returns ev2 ->
      assistantMessage ev1 m1 -> assistantMessage ev2 m2 ->
      messageText m1 = Some t -> messageText m2 = Some t -> t <> "" ->
      Pi.parsePiJson JSON_parse (streamOf (before ++ [l1; l2])) =
      Pi.parsePiJson JSON_parse (streamOf (before ++ [l1])) /\
      Agent.texts (Pi.parsePiJson JSON_parse (streamOf [l1; l2])) = [t]) /\
  (forall before line after e,
      singleLines (before ++ line :: after) ->
      JSON_parse line = Throws e ->
      Pi.parsePiJson JSON_parse (streamOf (before ++ line :: after)) =
      Pi.parsePiJson JSON_parse (streamOf (before ++ after))).
Proof.
  split; [| split; [| split]].
  - intros raw t Hin. by apply texts_from_assistant.
  - intros before line after ev msg t Hs Hc Hp Hm Ht Hne.
    rewrite parsePiJson_stream by done.
    rewrite filter_candidate_app. cbn [List.filter]. rewrite Hc.
    rewrite parseLines_app. cbn [fold_left].
    rewrite (step_tool _ _ line ev msg t Hp Hm Ht).
    apply nonEmpty_true in Hne. rewrite Hne.
    set (st := pushTool _ t).
    assert (Hin : t ∈ Pi.toolResults st).
    { apply elem_of_app; right. by apply list_elem_of_singleton. }
    apply (toolResults_fold_mono JSON_parse (List.filter candidate after))
      in Hin.
    unfold Pi.resultOf; cbn [Agent.toolResults].
    destruct (Pi.toolResults _) as [| x trs]; [by apply elem_of_nil in Hin|].
    by eexists.
  - intros before l1 l2 ev1 ev2 m1 m2 t Hs Hc1 Hc2 Hp1 Hp2 Ha1 Ha2 Ht1 Ht2 Hne.
    pose proof Hs as [Hb Hl]%singleLines_app.
    assert (Hl1 : singleLines [l1]).
    { inversion Hl; subst. by constructor. }
    split.
    + rewrite !parsePiJson_stream; [| by apply singleLines_app | done].
      rewrite !filter_candidate_app. cbn [List.filter]. rewrite Hc1, Hc2.
      rewrite !parseLines_app. cbn [fold_left].
      by rewrite (step_twice JSON_parse _ l1 l2 ev1 ev2 m1 m2 t).
    + rewrite parsePiJson_stream by done.
      cbn [List.filter]. rewrite Hc1, Hc2. cbn [Pi.resultOf Agent.texts].
      by apply (parseLines_pair JSON_parse l1 l2 ev1 ev2 m1 m2 t).
  - intros before line after e Hs Hp.
    pose proof Hs as [Hb Hl]%singleLines_app.
    assert (Ha : singleLines after) by (by inversion Hl).
    rewrite !parsePiJson_stream; [| by apply singleLines_app | done].
    rewrite !filter_candidate_app. cbn [List.filter].
    destruct (candidate line); [| done].
    by rewrite (parseLines_malformed JSON_parse _ line _ e Hp).
Qed.

(** C9.  The result of the pi parser has a [meta] if and only if [texts]
    is not empty, and then the stream splits at the last line whose text
    was appended to [texts]: [model], [provider], [stopReason] and [usage]
    are those of the assistant message on that line. *)
Theorem C9_pi_meta_last_assistant
    (JSON_parse : string -> completion json) (raw : string) :
  (is_Some (Agent.meta (Pi.parsePiJson JSON_parse raw)) <->
   Agent.texts (Pi.parsePiJson JSON_parse raw) <> []) /\
  (forall m,
      Agent.meta (Pi.parsePiJson JSON_parse raw) = Some m ->
      exists before line after ev msg t,
        Pi.candidateLines raw = before ++ line :: after /\
        JSON_parse line = Returns ev /\ assistantMessage ev msg /\
        messageText msg = Some t /\
        Pi.texts (Pi.parseLines JSON_parse (before ++ [line])) =
          Pi.texts (Pi.parseLines JSON_parse before) ++ [t] /\
        Agent.texts (Pi.parsePiJson JSON_parse raw) =
          Pi.texts (Pi.parseLines JSON_parse (before ++ [line])) /\
        Agent.model m = prop msg "model" /\
        Agent.provider m = prop msg "provider" /\
        Agent.stopReason m = prop msg "stopReason" /\
        Agent.usage m = prop msg "usage").
Proof.
  unfold Pi.parsePiJson, Pi.resultOf; cbn [Agent.meta Agent.texts].
  pose proof (lastPush_parseLines JSON_parse (Pi.candidateLines raw)) as Hlast.
  set (st := Pi.parseLines JSON_parse (Pi.candidateLines raw)) in *.
  destruct Hlast as [[Hl Ht] | (before&line&after&ev&msg&t&Hsplit&Hp&Ha&Hm&Hpush&Hts&Hl)].
  - rewrite Hl, Ht. split.
    + split; [by intros [? ?] | done].
    + discriminate.
  - rewrite Hl. rewrite Hts, Hpush.
    destruct (Pi.texts (Pi.parseLines JSON_parse before) ++ [t]) as [| x xs] eqn:Hx.
    { by apply app_eq_nil in Hx as [_ ?]. }
    split.
    + split; [done | by eexists].
    + intros m [= <-].
      exists before, line, after, ev, msg, t.
      rewrite Hpush, Hx. done.
Qed.

Lemma endsWithNoCase_split suffix s :
  Pi.endsWithNoCase suffix s = true ->
  s = String.substring 0 (String.length s - String.length suffix) s +:+
      String.substring (String.length s - String.length suffix)
        (String.length suffix) s /\
  Js.toLowerCase
    (String.substring (String.length s - String.length suffix)
       (String.length suffix) s) = suffix.
Proof.
  unfold Pi.endsWithNoCase. intros [Hk He]%andb_true_iff.
  apply Nat.leb_le in Hk. apply String.eqb_eq in He. split; [| done].
  rewrite (substring_split s (String.length s - String.length suffix)) at 1
    by lia.
  do 2 f_equal. lia.
Qed.

Lemma toLowerCase_js ext :
  Js.toLowerCase ext = ".js" ->
  exists c1 c2 c3, ext = String c1 (String c2 (String c3 "")) /\
    Js.lowerChar c1 = "."%char /\ Js.lowerChar c2 = "j"%char /\
    Js.lowerChar c3 = "s"%char.
Proof.
  destruct ext as [| c1 [| c2 [| c3 [| c4 ext]]]]; simpl; try discriminate.
  intros [= H1 H2 H3]. eauto 10.
Qed.

Lemma toLowerCase_mjs ext :
  Js.toLowerCase ext = ".mjs" ->
  exists c1 c2 c3 c4,
    ext = String c1 (String c2 (String c3 (String c4 ""))) /\
    Js.lowerChar c1 = "."%char /\ Js.lowerChar c2 = "m"%char /\
    Js.lowerChar c3 = "j"%char /\ Js.lowerChar c4 = "s"%char.
Proof.
  destruct ext as [| c1 [| c2 [| c3 [| c4 [| c5 ext]]]]]; simpl;
    try discriminate.
  intros [= H1 H2 H3 H4]. eauto 10.
Qed.

Lemma stripJsExtension_ext base ext :
  (base = "pi" \/ base = "tau") -> ext = "" \/ jsExtension ext ->
  Pi.stripJsExtension (base +:+ ext) = base.
Proof.
  intros Hb [-> | [H | H]].
  - by destruct Hb as [-> | ->].
  - apply toLowerCase_js in H as (c1 & c2 & c3 & -> & H1 & H2 & H3).
    destruct Hb as [-> | ->]; unfold Pi.stripJsExtension, Pi.endsWithNoCase;
      cbv [String.append]; cbn -[Js.lowerChar]; rewrite H1, H2, H3; reflexivity.
  - apply toLowerCase_mjs in H as (c1 & c2 & c3 & c4 & -> & H1 & H2 & H3 & H4).
    destruct Hb as [-> | ->]; unfold Pi.stripJsExtension, Pi.endsWithNoCase;
      cbv [String.append]; cbn -[Js.lowerChar]; rewrite H1, H2, H3, H4;
      reflexivity.
Qed.

Lemma stripJsExtension_inv s :
  exists ext, (ext = "" \/ jsExtension ext) /\
              s = Pi.stripJsExtension s +:+ ext.
Proof.
  unfold Pi.stripJsExtension.
  destruct (Pi.endsWithNoCase ".mjs" s) eqn:H4.
  { apply endsWithNoCase_split in H4 as [Hs Hl]. eexists. split; [| exact Hs].
    right; by right. }
  destruct (Pi.endsWithNoCase ".js" s) eqn:H3.
  { apply endsWithNoCase_split in H3 as [Hs Hl]. eexists. split; [| exact Hs].
    right; by left. }
  exists "". split; [by left|]. clear. induction s; [done|].
  rewrite append_cons. congruence.
Qed.

(** C8 (amended).  For every non-empty argv, the pi matcher returns true
    if and only if the basename of [argv[0]] is [pi] or [tau], optionally
    followed by one [.js] or [.mjs] extension in any letter case. *)
Theorem C8_pi_matcher_basename (argv0 : string) (rest : list string) :
  Pi.isInvocation (argv0 :: rest) = true <->
  exists base ext,
    (base = "pi" \/ base = "tau") /\ (ext = "" \/ jsExtension ext) /\
    Path.basename argv0 = base +:+ ext.
Proof.
  unfold Pi.isInvocation. rewrite orb_true_iff, !String.eqb_eq. split.
  - intros Hb.
    destruct (stripJsExtension_inv (Path.basename argv0)) as (ext & Hext & Hs).
    exists (Pi.stripJsExtension (Path.basename argv0)), ext. done.
  - intros (base & ext & Hb & Hext & ->).
    rewrite (stripJsExtension_ext base ext Hb Hext). done.
Qed.

(** C8 as stated fails: [pi.js] is matched although its basename is
    neither [pi] nor [tau]. *)
Lemma C8_counterexample_pi_js :
  Pi.isInvocation ["/usr/local/bin/pi.js"] = true /\
  Path.basename "/usr/local/bin/pi.js" = "pi.js" /\
  ~ (Pi.isInvocation ["/usr/local/bin/pi.js"] = true <->
     (Path.basename "/usr/local/bin/pi.js" = "pi" \/
      Path.basename "/usr/local/bin/pi.js" = "tau")).
Proof.
  split; [reflexivity|]. split; [reflexivity|].
  intros [H _]. destruct (H eq_refl) as [H' | H']; vm_compute in H'; discriminate.
Qed.

End PiFacts.

(** ** The reply engine *)

Module EngineFacts.
Import Json Props JsFacts Agent CommandReply.

Section MediaFacts.
Variable fs_stat : string -> StatResult.
Variable path_resolve : string -> string.

Local Abbreviation filterMedia := (CommandReply.filterMedia fs_stat path_resolve).
Local Abbreviation over := (measuredOver fs_stat path_resolve).
Local Abbreviation statOf := (fun url => fs_stat (statPath path_resolve url)).

(** What the loop does with one path. *)
Lemma filterMedia_cons maxBytes url rest :
  filterMedia maxBytes (url :: rest) =
  if isHttpUrl url then url :: filterMedia maxBytes rest
  else match statOf url with
       | StatOk size =>
           if Qle_bool (inject_Z size) maxBytes
           then url :: filterMedia maxBytes rest
           else filterMedia maxBytes rest
       | StatThrows => url :: filterMedia maxBytes rest
       end.
Proof. reflexivity. Qed.

Lemma filterMedia_sub maxBytes urls url :
  url ∈ filterMedia maxBytes urls -> url ∈ urls.
Proof.
  induction urls as [| u rest IH]; [done|].
  rewrite filterMedia_cons.
  destruct (isHttpUrl u); [| destruct (statOf u) as [size|];
                             [destruct (Qle_bool _ _)|]];
    rewrite ?elem_of_cons; tauto.
Qed.

(** A path that is kept is a URL, or could not be measured, or was
    measured within the cap. *)
Lemma filterMedia_kept maxBytes urls url :
  url ∈ filterMedia maxBytes urls ->
  isHttpUrl url = true \/ statOf url = StatThrows \/
  exists size, statOf url = StatOk size /\ (inject_Z size <= maxBytes)%Q.
Proof.
  induction urls as [| u rest IH]; [by intros ?%elem_of_nil|].
  rewrite filterMedia_cons.
  destruct (isHttpUrl u) eqn:Hh.
  { intros [-> | H]%elem_of_cons; [by left | by apply IH]. }
  destruct (statOf u) as [size|] eqn:Hs.
  - destruct (Qle_bool (inject_Z size) maxBytes) eqn:Hle; [| apply IH].
    intros [-> | H]%elem_of_cons; [| by apply IH].
    right; right. exists size. split; [done | by apply Qle_bool_iff].
  - intros [-> | H]%elem_of_cons; [by right; left | by apply IH].
Qed.

(** A local path that could not be measured is kept. *)
Lemma filterMedia_keeps_unmeasured maxBytes urls url :
  url ∈ urls -> isHttpUrl url = false -> statOf url = StatThrows ->
  url ∈ filterMedia maxBytes urls.
Proof.
  intros Hin Hh Hs. induction urls as [| u rest IH]; [done|].
  rewrite filterMedia_cons. apply elem_of_cons in Hin as [<- | Hin].
  - rewrite Hh, Hs. by left.
  - specialize (IH Hin).
    destruct (isHttpUrl u); [| destruct (statOf u) as [size|];
                               [destruct (Qle_bool _ _)|]];
      rewrite ?elem_of_cons; auto.
Qed.

(** A URL is kept. *)
Lemma filterMedia_keeps_http maxBytes urls url :
  url ∈ urls -> isHttpUrl url = true -> url ∈ filterMedia maxBytes urls.
Proof.
  intros Hin Hh. induction urls as [| u rest IH]; [done|].
  rewrite filterMedia_cons. apply elem_of_cons in Hin as [<- | Hin].
  - rewrite Hh. by left.
  - specialize (IH Hin).
    destruct (isHttpUrl u); [| destruct (statOf u) as [size|];
                               [destruct (Qle_bool _ _)|]];
      rewrite ?elem_of_cons; auto.
Qed.

(** Only a path measured above the cap is removed. *)
Lemma filterMedia_removed maxBytes urls url :
  url ∈ urls -> url ∉ filterMedia maxBytes urls -> over maxBytes url.
Proof.
  intros Hin Hout. unfold measuredOver.
  destruct (isHttpUrl url) eqn:Hh.
  { destruct Hout. by apply filterMedia_keeps_http. }
  split; [done|].
  destruct (statOf url) as [size|] eqn:Hs.
  2:{ destruct Hout. by apply filterMedia_keeps_unmeasured. }
  exists size. split; [done|]. intros Hle. apply Hout. clear Hout.
  induction urls as [| u rest IH]; [done|].
  rewrite filterMedia_cons. apply elem_of_cons in Hin as [<- | Hin].
  - rewrite Hh, Hs. apply Qle_bool_iff in Hle. rewrite Hle. by left.
  - specialize (IH Hin).
    destruct (isHttpUrl u); [| destruct (statOf u) as [sz|];
                               [destruct (Qle_bool _ _)|]];
      rewrite ?elem_of_cons; auto.
Qed.

Lemma filterMedia_over_removed maxBytes urls url :
  over maxBytes url -> url ∉ filterMedia maxBytes urls.
Proof.
  intros (Hh & size & Hs & Hgt) Hin.
  apply filterMedia_kept in Hin as [H | [H | (sz & H & Hle)]]; try congruence.
  rewrite Hs in H. injection H as <-. done.
Qed.

(** URLs pass through the loop unchanged, in their order. *)
Lemma filterMedia_http maxBytes urls :
  List.filter isHttpUrl (filterMedia maxBytes urls) = List.filter isHttpUrl urls.
Proof.
  induction urls as [| u rest IH]; [done|].
  rewrite filterMedia_cons. cbn [List.filter].
  destruct (isHttpUrl u) eqn:Hh.
  - cbn [List.filter]. by rewrite Hh, IH.
  - destruct (statOf u) as [size|]; [destruct (Qle_bool _ _)|];
      cbn [List.filter]; rewrite ?Hh; done.
Qed.

Lemma mediaOfItem_capped cfg item M urls :
  mediaCap cfg = Some M -> candidateMedia cfg item = Some urls ->
  mediaOfItem fs_stat path_resolve cfg item =
  Some (filterMedia (M * 1024 * 1024)%Q urls).
Proof.
  intros Hcap Hc. unfold mediaOfItem. rewrite Hcap, Hc.
  destruct urls; reflexivity.
Qed.

Lemma mediaOfItem_http cfg item :
  List.filter isHttpUrl (default [] (mediaOfItem fs_stat path_resolve cfg item)) =
  List.filter isHttpUrl (default [] (candidateMedia cfg item)).
Proof.
  unfold mediaOfItem.
  destruct (candidateMedia cfg item) as [[| u urls]|]; try done;
    destruct (mediaCap cfg); try done.
  cbn [default]. apply filterMedia_http.
Qed.


End MediaFacts.

Section Reply.
Variable applyTemplate : string -> TemplateContext -> string.
Variable splitMediaFromOutput : string -> string * option (list string).
Variable getAgentSpec : AgentKind -> AgentSpec.
Variable enqueueCommand : EnqueueRunner.
Variable runPiRpc : RpcRequest -> RunOutcome.
Variable fs_stat : string -> StatResult.
Variable path_resolve : string -> string.

Local Abbreviation runReply :=
  (runCommandReply applyTemplate splitMediaFromOutput getAgentSpec
     enqueueCommand runPiRpc fs_stat path_resolve).
Local Abbreviation queued :=
  (enqueuedRun applyTemplate getAgentSpec enqueueCommand runPiRpc).

Lemma runCommandReply_nonEmpty p cmd :
  command (reply p) = Some cmd -> cmd <> [] ->
  runReply p =
  match outcome (queued p cmd) with
  | Resolved r =>
      Returns (onResolved splitMediaFromOutput fs_stat path_resolve p
                 (getAgentSpec (agent_kind (agentCfgOf p)))
                 (waited (queued p cmd)) r)
  | Rejected e => Returns (onRejected p (waited (queued p cmd)) e)
  | RejectedNullish v => Throws (nullishTypeError v)
  end.
Proof.
  intros Hc Hne. unfold runCommandReply. rewrite Hc.
  by destruct cmd.
Qed.

Lemma nonEmpty_append a b : Js.nonEmpty a = true -> a +:+ b <> "".
Proof. destruct a; [discriminate | by rewrite append_cons]. Qed.

Lemma timeoutText_nonEmpty p e : timeoutText p e <> "".
Proof.
  unfold timeoutText.
  repeat match goal with
         | |- context [match ?x with _ => _ end] => destruct x
         end; by apply nonEmpty_append.
Qed.

Lemma timeoutHit_true e :
  timeoutHit e = true <->
  err_killed e = Some true \/ err_signal e = Some "SIGKILL".
Proof.
  unfold timeoutHit. rewrite orb_true_iff, !bool_decide_eq_true. done.
Qed.

(** The shape of the text of the timeout payload. *)
Lemma timeoutText_shape p e :
  exists base,
    Js.includes "timed out" base = true /\
    Js.includes (Js.numberToString (timeoutSeconds p) +:+ "s") base = true /\
    match err_stdout e with
    | Some out =>
        if Js.nonEmpty (Js.trim out)
        then exists header,
               timeoutText p e =
               base +:+ header +:+ Js.slice0 800 (Js.trim out) +:+
               (if (800 <? String.length (Js.trim out))%nat then "..." else "")
        else timeoutText p e = base
    | None => timeoutText p e = base
    end.
Proof.
  unfold timeoutText.
  set (base := "Command timed out after " +:+ _).
  exists base. split; [| split].
  - subst base. apply includes_weaken_r. reflexivity.
  - subst base. apply includes_weaken_l.
    rewrite <- append_assoc. apply includes_append_l.
  - destruct (err_stdout e) as [out|]; cbn [fmap option_fmap option_map]; [| done].
    destruct (Js.nonEmpty (Js.trim out)) eqn:Hne; cbn [andb].
    + exists (String "010" (String "010" "") +:+
              "Partial output before timeout:" +:+ String "010" "").
      destruct (800 <? String.length (Js.trim out))%nat eqn:Hlen.
      * assert (Hn : Js.nonEmpty (Js.slice0 800 (Js.trim out) +:+ "...") = true).
        { destruct (Js.slice0 800 (Js.trim out)); reflexivity. }
        rewrite Hn. by rewrite !append_assoc.
      * rewrite Hne. apply Nat.ltb_ge in Hlen.
        rewrite (slice0_short _ _ Hlen), append_empty_r.
        by rewrite !append_assoc.
    + by rewrite Hne.
Qed.


(** C3.  When the awaited run is rejected with an error marked killed or
    signalled SIGKILL, [runCommandReply] returns, without throwing, exactly
    one payload; its text contains "timed out" and the configured timeout
    in seconds, and, when the trimmed partial stdout is not empty, the
    prefix of at most 800 code units of it (all of it when it is that
    short), followed by an ellipsis when it was cut. *)
Theorem C3_timeout_fallback p cmd e :
  command (reply p) = Some cmd -> cmd <> [] ->
  outcome (queued p cmd) = Rejected e ->
  err_killed e = Some true \/ err_signal e = Some "SIGKILL" ->
  exists r t,
    runReply p = Returns r /\ payloads r = [textPayload t] /\
    Js.includes "timed out" t = true /\
    Js.includes (Js.numberToString (timeoutSeconds p)) t = true /\
    Js.includes (Js.numberToString (timeoutSeconds p) +:+ "s") t = true /\
    forall out,
      err_stdout e = Some out -> Js.trim out <> "" ->
      String.prefix (Js.slice0 800 (Js.trim out)) (Js.trim out) = true /\
      (String.length (Js.slice0 800 (Js.trim out)) <= 800)%nat /\
      Js.includes (Js.slice0 800 (Js.trim out)) t = true /\
      ((String.length (Js.trim out) <= 800)%nat ->
       Js.includes (Js.trim out) t = true) /\
      exists head,
        t = head +:+ Js.slice0 800 (Js.trim out) +:+
            (if (800 <? String.length (Js.trim out))%nat then "..." else "").
Proof.
  intros Hc Hne Ho Hk. apply timeoutHit_true in Hk.
  rewrite (runCommandReply_nonEmpty p cmd Hc Hne), Ho.
  unfold onRejected. rewrite Hk.
  eexists _, (timeoutText p e). split; [reflexivity|]. split; [reflexivity|].
  destruct (timeoutText_shape p e) as (base & Hb1 & Hb2 & Hshape).
  assert (Hbase : exists tail, timeoutText p e = base +:+ tail).
  { destruct (err_stdout e) as [out|].
    - destruct (Js.nonEmpty (Js.trim out)).
      + destruct Hshape as (header & ->). eauto.
      + exists "". by rewrite append_empty_r.
    - exists "". by rewrite append_empty_r. }
  destruct Hbase as (tail & Htail).
  assert (Hb3 : Js.includes (Js.numberToString (timeoutSeconds p)) base = true).
  { clear -Hb2. revert Hb2. generalize (Js.numberToString (timeoutSeconds p)).
    intros n. induction base as [| c b IH]; cbn [Js.includes].
    - destruct n; [done | by rewrite append_cons].
    - intros [H | H]%orb_true_iff.
      + assert (Hp : String.prefix n (String c b) = true).
        { revert H. generalize (String c b). clear. intros s. revert s.
          induction n as [| d n IH]; intros s; [intros _; apply prefix_empty|].
          rewrite append_cons. destruct s as [| c s]; [done|]. simpl.
          destruct (ascii_dec d c); [apply IH | done]. }
        by rewrite Hp.
      + rewrite (IH H). apply orb_true_r. }
  rewrite Htail at 1 2 3.
  split; [by apply includes_weaken_r|]. split; [by apply includes_weaken_r|].
  split; [by apply includes_weaken_r|].
  intros out Hout Hto. rewrite Hout in Hshape.
  apply nonEmpty_true in Hto. rewrite Hto in Hshape.
  destruct Hshape as (header & Ht).
  split; [apply slice0_prefix|]. split; [apply slice0_length|].
  assert (Hinc : Js.includes (Js.slice0 800 (Js.trim out)) (timeoutText p e) = true).
  { rewrite Ht, <- append_assoc. apply includes_append. }
  split; [done|]. split.
  - intros Hlen. by rewrite <- (slice0_short 800 (Js.trim out) Hlen) at 1.
  - exists (base +:+ header). by rewrite Ht, !append_assoc.
Qed.

Lemma onResolved_failed p agent q r :
  failedRun (Resolved r) ->
  exists t,
    payloads (onResolved splitMediaFromOutput fs_stat path_resolve p agent q r)
    = [textPayload t] /\ t <> "".
Proof.
  unfold failedRun, onResolved.
  destruct (negb (default 0 (code r) =? 0)%Z) eqn:Hcode.
  - intros _. eexists. split; [reflexivity|]. by apply nonEmpty_append.
  - intros [(c & Hc & Hnz) | [Hk Hs]].
    + rewrite Hc in Hcode. cbn in Hcode.
      apply negb_false_iff, Z.eqb_eq in Hcode. done.
    + rewrite Hk, Hs. cbn. eexists. split; [reflexivity|].
      by apply nonEmpty_append.
Qed.

Lemma onRejected_payload p q e :
  exists t, payloads (onRejected p q e) = [textPayload t] /\ t <> "".
Proof.
  unfold onRejected. destruct (timeoutHit e); eexists; (split; [reflexivity|]).
  - apply timeoutText_nonEmpty.
  - by apply nonEmpty_append.
Qed.

Lemma succeededRun_branches r :
  succeededRun r ->
  negb (default 0 (code r) =? 0)%Z = false /\
  default false (killed r) && negb (truthyString (signal r)) = false.
Proof.
  intros [Hc Hk]. split.
  - by destruct Hc as [-> | ->].
  - destruct (killed r) as [[]|]; cbn; try done. by rewrite Hk.
Qed.

Lemma replyItemsOf_nothing p trimmed parsed :
  match parsed with
  | Some r => parsedNothing (verboseLevel p) r
  | None => trimmed = ""
  end ->
  replyItemsOf splitMediaFromOutput p trimmed parsed =
  [ {| item_text :=
         noOutputNotice (m ← (r ← parsed; Agent.meta r); extra_summary m);
       item_media := None |} ].
Proof.
  unfold replyItemsOf. destruct parsed as [r|]; cbn.
  - intros [Ht Hv]. rewrite Ht. cbn.
    assert (Htools :
      match verboseLevel p with
      | Some verbose_on =>
          map (fun tr => itemOfText splitMediaFromOutput (toolSign +:+ " " +:+ tr))
            (trimmedNonEmpty (default [] (toolResults r)))
      | _ => []
      end = []).
    { destruct (verboseLevel p) as [[]|]; try done. by rewrite Hv. }
    rewrite Htools. rewrite andb_false_r.
    destruct (Agent.meta r) as [m|]; cbn; [| done].
    destruct (extra_summary m) as [s|]; cbn; [| done].
    by destruct (Js.nonEmpty s).
  - intros ->. by destruct (verboseLevel p) as [[]|].
Qed.

Lemma noOutputNotice_nonEmpty summary :
  Js.nonEmpty (noOutputNotice summary) = true.
Proof. destruct summary as [m|]; cbn; [by destruct (Js.nonEmpty m) | done]. Qed.

Lemma replyItemsOf_raw p trimmed :
  Js.nonEmpty trimmed = true ->
  Js.nonEmpty (item_text (itemOfText splitMediaFromOutput trimmed)) = true ->
  replyItemsOf splitMediaFromOutput p trimmed None =
  [itemOfText splitMediaFromOutput trimmed].
Proof.
  intros Ht Hi. unfold replyItemsOf. cbn.
  destruct (verboseLevel p) as [[]|]; cbn; rewrite Ht, Hi; reflexivity.
Qed.

(** C1 (amended).  When the run succeeded: if the trimmed stdout is empty,
    or if the agent's [parseOutput] on it returns a result without any
    text (and without tool result under verbose), [runCommandReply] does
    not fall back to the raw stdout but returns the single
    "(command produced no output)" payload, extended by the summary of the
    parse result's meta when there is one; the raw trimmed stdout, as the
    media splitter leaves it, is the single payload only when
    [parseOutput] returns no result at all. *)
Theorem C1_no_output_notice p cmd r0 :
  command (reply p) = Some cmd -> cmd <> [] ->
  outcome (queued p cmd) = Resolved r0 -> succeededRun r0 ->
  exists r,
    runReply p = Returns r /\
    (Js.trim (stdout r0) = "" ->
     map text (payloads r) = [Some (noOutputNotice None)]) /\
    (forall res,
        Js.trim (stdout r0) <> "" ->
        parseOutput (getAgentSpec (agent_kind (agentCfgOf p)))
          (Js.trim (stdout r0)) = Some res ->
        parsedNothing (verboseLevel p) res ->
        map text (payloads r) =
        [Some (noOutputNotice (m ← Agent.meta res; extra_summary m))]) /\
    (forall cleaned media,
        Js.trim (stdout r0) <> "" ->
        parseOutput (getAgentSpec (agent_kind (agentCfgOf p)))
          (Js.trim (stdout r0)) = None ->
        splitMediaFromOutput (Js.trim (stdout r0)) = (cleaned, media) ->
        cleaned <> "" ->
        map text (payloads r) = [Some cleaned]).
Proof.
  intros Hc Hne Ho Hok.
  rewrite (runCommandReply_nonEmpty p cmd Hc Hne), Ho.
  eexists. split; [reflexivity|].
  unfold onResolved.
  destruct (succeededRun_branches r0 Hok) as [-> ->]. cbn [payloads].
  split; [| split].
  - intros Ht. rewrite Ht. cbn [Js.nonEmpty].
    rewrite replyItemsOf_nothing by done.
    cbn [omap list_omap]. unfold payloadOfItem. cbn [item_text].
    by rewrite noOutputNotice_nonEmpty.
  - intros res Ht%nonEmpty_true Hres Hnothing. rewrite Ht, Hres.
    rewrite replyItemsOf_nothing by done.
    cbn [omap list_omap]. unfold payloadOfItem. cbn [item_text].
    by rewrite noOutputNotice_nonEmpty.
  - intros cleaned media Ht%nonEmpty_true Hres Hsplit Hcl%nonEmpty_true.
    rewrite Ht, Hres.
    assert (Hitem : item_text (itemOfText splitMediaFromOutput
                                 (Js.trim (stdout r0))) = cleaned).
    { unfold itemOfText. by rewrite Hsplit. }
    rewrite replyItemsOf_raw; [| done | by rewrite Hitem].
    cbn [omap list_omap]. unfold payloadOfItem. rewrite Hitem, Hcl.
    reflexivity.
Qed.

End Reply.

End EngineFacts.

(** ** The media cap on whole replies *)

Module MediaCapFacts.
Import Json Props JsFacts Agent CommandReply EngineFacts.

Section MediaCap.
Variable applyTemplate : string -> TemplateContext -> string.
Variable splitMediaFromOutput : string -> string * option (list string).
Variable getAgentSpec : AgentKind -> AgentSpec.
Variable enqueueCommand : EnqueueRunner.
Variable runPiRpc : RpcRequest -> RunOutcome.
Variable fs_stat : string -> StatResult.
Variable path_resolve : string -> string.

Local Abbreviation runReply :=
  (runCommandReply applyTemplate splitMediaFromOutput getAgentSpec
     enqueueCommand runPiRpc fs_stat path_resolve).

(** Every payload returned carries either no media at all or the media of
    a reply item, as [mediaOfItem] leaves them. *)
Lemma payload_media p r payload urls :
  runReply p = Returns r -> payload ∈ payloads r ->
  mediaUrls payload = Some urls ->
  exists item,
    mediaOfItem fs_stat path_resolve (reply p) item = Some urls.
Proof.
  unfold runCommandReply.
  destruct (command (reply p)) as [[| c cmd]|]; try discriminate.
  set (q := enqueuedRun _ _ _ _ _ _).
  destruct (outcome q) as [r0 | e | v]; intros [= <-].
  - unfold onResolved.
    destruct (negb _);
      [| destruct (_ && _)]; cbn [payloads].
    1,2: by intros ->%list_elem_of_singleton.
    intros (item & _ & Hp)%list_elem_of_omap Hm.
    exists item. unfold payloadOfItem in Hp.
    destruct (_ || _); [| discriminate]. injection Hp as <-. done.
  - unfold onRejected. destruct (timeoutHit e); cbn [payloads];
      by intros ->%list_elem_of_singleton.
Qed.

(** C5 (amended).  When [reply.mediaMaxMb = M] is set, every local media
    path in a returned payload either could not be measured (the [stat]
    call threw) or was measured at no more than [M * 1024 * 1024] bytes;
    the http(s) URLs of a reply item pass through unchanged, in order. *)
Theorem C5_media_cap p r M :
  runReply p = Returns r -> mediaCap (reply p) = Some M ->
  (forall payload urls url,
      payload ∈ payloads r -> mediaUrls payload = Some urls -> url ∈ urls ->
      isHttpUrl url = false ->
      fs_stat (statPath path_resolve url) = StatThrows \/
      exists size,
        fs_stat (statPath path_resolve url) = StatOk size /\
        (inject_Z size <= M * 1024 * 1024)%Q) /\
  (forall item,
      List.filter isHttpUrl
        (default [] (mediaOfItem fs_stat path_resolve (reply p) item)) =
      List.filter isHttpUrl (default [] (candidateMedia (reply p) item))).
Proof.
  intros Hr Hcap. split; [| intros item; apply mediaOfItem_http].
  intros payload urls url Hp Hm Hin Hlocal.
  destruct (payload_media p r payload urls Hr Hp Hm) as (item & Hitem).
  unfold mediaOfItem in Hitem. rewrite Hcap in Hitem.
  destruct (candidateMedia (reply p) item) as [[| u us]|]; try discriminate.
  { injection Hitem as <-. by apply elem_of_nil in Hin. }
  injection Hitem as <-.
  apply (filterMedia_kept fs_stat path_resolve _ (u :: us)) in Hin
    as [H | H]; [congruence | done].
Qed.

End MediaCap.

End MediaCapFacts.

(** ** Session flags and thinking cues in argv *)

Module ArgvFacts.
Import Json Props JsFacts Agent CommandReply.

Section SessionFlags.
Variable applyTemplate : string -> TemplateContext -> string.


End SessionFlags.


Lemma appendThinkingCue_cue body level :
  level <> off ->
  appendThinkingCue body (Some level) =
  if Js.nonEmpty (Js.trim body)
  then Js.trim body +:+ " " +:+ cueWord level
  else cueWord level.
Proof.
  intros Hl. unfold appendThinkingCue.
  destruct level; try done; cbn; by destruct (Js.trim body).
Qed.



End ArgvFacts.

(** ** Examples: the theorems at concrete inputs *)

Module Examples.
Import Json Props Agent CommandReply Fixture.

(** C1 as stated fails: the pi parser finds no text in a stdout that is
    not a JSON stream, and the reply is the notice, not the raw stdout. *)
Lemma C1_counterexample_plain_stdout :
  Js.trim (stdout (okResult "plain words")) = "plain words" /\
  Agent.texts <$> parseOutput (registry pi) "plain words" = Some [] /\
  exists r,
    runWith statFails piConfig (Resolved (okResult "plain words")) = Returns r /\
    payloads r = [textPayload "(command produced no output)"] /\
    payloads r <> [textPayload "plain words"].
Proof.
  split; [reflexivity|]. split; [reflexivity|].
  eexists. split; [reflexivity|]. split; [reflexivity | discriminate].
Qed.

Lemma C1_witness_plain_stdout :
  exists r,
    runWith statFails piConfig (Resolved (okResult "plain words")) = Returns r /\
    map text (payloads r) = [Some "(command produced no output)"].
Proof.
  destruct (EngineFacts.C1_no_output_notice
              applyTemplate splitNoMedia registry idleQueue
              (fun _ => Resolved (okResult "plain words")) statFails
              resolveInWork
              (paramsOf piConfig (Resolved (okResult "plain words")))
              piCommand (okResult "plain words"))
    as (r & Hr & _ & Hp & _).
  - reflexivity.
  - discriminate.
  - reflexivity.
  - split; [right; reflexivity | discriminate].
  - exists r. split; [exact Hr|].
    apply (Hp (Pi.parsePiJson parseKnown "plain words"));
      [discriminate | reflexivity |].
    split; [reflexivity | discriminate].
Defined.

Lemma C3_witness_partial_answer :
  exists r t,
    runWith statFails piConfig (Rejected (timeoutError (Some "partial answer ")))
    = Returns r /\
    payloads r = [textPayload t] /\
    Js.includes "timed out" t = true /\
    Js.includes "30" t = true /\
    Js.includes "partial answer" t = true.
Proof.
  destruct (EngineFacts.C3_timeout_fallback
              applyTemplate splitNoMedia registry idleQueue
              (fun _ => Rejected (timeoutError (Some "partial answer ")))
              statFails resolveInWork
              (paramsOf piConfig (Rejected (timeoutError (Some "partial answer "))))
              piCommand (timeoutError (Some "partial answer ")))
    as (r & t & Hr & Hp & H1 & H2 & _ & H4).
  - reflexivity.
  - discriminate.
  - reflexivity.
  - left; reflexivity.
  - destruct (H4 "partial answer " eq_refl) as (_ & _ & _ & Hall & _).
    + discriminate.
    + exists r, t. split; [exact Hr|]. split; [exact Hp|].
      split; [exact H1|]. split; [exact H2|]. apply Hall. vm_compute. lia.
Defined.

(** C5 as stated fails: under a cap of 1 MB a local path on which [stat]
    throws is emitted, although no file of at most 1048576 bytes is known
    behind it. *)
Lemma C5_counterexample_unmeasured_path :
  isHttpUrl "/tmp/missing.png" = false /\
  statFails (statPath resolveInWork "/tmp/missing.png") = StatThrows /\
  exists r,
    runWith statFails (cappedConfig "/tmp/missing.png") helloRun = Returns r /\
    payloads r =
      [ {| text := Some "hello";
           payload_mediaUrl := Some "/tmp/missing.png";
           mediaUrls := Some ["/tmp/missing.png"] |} ] /\
    ~ exists size,
        statFails (statPath resolveInWork "/tmp/missing.png") = StatOk size /\
        (inject_Z size <= 1 * 1024 * 1024)%Q.
Proof.
  split; [reflexivity|]. split; [reflexivity|].
  eexists. split; [reflexivity|]. split; [reflexivity|].
  intros (size & H & _). discriminate H.
Qed.

Lemma C5_witness_small_file :
  exists r,
    runWith statTwoFiles (cappedConfig "/tmp/small.png") helloRun = Returns r /\
    payloads r =
      [ {| text := Some "hello";
           payload_mediaUrl := Some "/tmp/small.png";
           mediaUrls := Some ["/tmp/small.png"] |} ] /\
    forall payload urls url,
      payload ∈ payloads r -> mediaUrls payload = Some urls -> url ∈ urls ->
      isHttpUrl url = false ->
      statTwoFiles (statPath resolveInWork url) = StatThrows \/
      exists size,
        statTwoFiles (statPath resolveInWork url) = StatOk size /\
        (inject_Z size <= 1 * 1024 * 1024)%Q.
Proof.
  eexists. split; [reflexivity|]. split; [reflexivity|].
  refine (proj1 (MediaCapFacts.C5_media_cap
                   applyTemplate splitNoMedia registry idleQueue
                   (fun _ => helloRun) statTwoFiles resolveInWork
                   (paramsOf (cappedConfig "/tmp/small.png") helloRun)
                   _ 1%Q _ _)); reflexivity.
Defined.




Lemma helloEvent_assistant : assistantMessage helloEvent helloBody.
Proof.
  split; [right; reflexivity|]. split; [reflexivity|]. split; [reflexivity|].
  eexists; reflexivity.
Defined.

Lemma toolEvent_tool : toolMessage toolEvent toolBody.
Proof.
  split; [right; reflexivity|]. split; [reflexivity|].
  eexists; split; reflexivity.
Defined.

Lemma singleLines_of (lines : list string) :
  forallb singleLine lines = true -> singleLines lines.
Proof.
  intros H. apply Forall_forall. intros l Hl.
  rewrite forallb_forall in H. apply H. by apply list_elem_of_In.
Defined.

Lemma C4_witness_known_stream :
  Agent.texts (Pi.parsePiJson parseKnown (streamOf [helloLine; helloLine])) =
    ["hello"] /\
  (exists trs,
      Agent.toolResults
        (Pi.parsePiJson parseKnown (streamOf [helloLine; toolLine; helloLine]))
      = Some trs /\ "ls: ok" ∈ trs) /\
  Pi.parsePiJson parseKnown (streamOf [helloLine; "{not json"; toolLine]) =
  Pi.parsePiJson parseKnown (streamOf [helloLine; toolLine]).
Proof.
  destruct (PiFacts.C4_pi_stream_parser parseKnown) as (_ & Htool & Hdup & Hbad).
  split; [| split].
  - apply (Hdup [] helloLine helloLine helloEvent helloEvent helloBody
             helloBody "hello");
      first [ apply singleLines_of; reflexivity
            | apply helloEvent_assistant
            | reflexivity
            | discriminate ].
  - apply (Htool [helloLine] toolLine [helloLine] toolEvent toolBody "ls: ok");
      first [ apply singleLines_of; reflexivity
            | apply toolEvent_tool
            | reflexivity
            | discriminate ].
  - apply (Hbad [helloLine] "{not json" [toolLine]
             "SyntaxError: unexpected token");
      first [ apply singleLines_of; reflexivity | reflexivity ].
Defined.

Lemma C9_witness_two_turns :
  is_Some (Agent.meta (Pi.parsePiJson parseKnown twoTurns)).
Proof.
  apply (proj2 (proj1 (PiFacts.C9_pi_meta_last_assistant parseKnown twoTurns))).
  vm_compute. discriminate.
Defined.


End Examples.

(** * Invariants and laws *)

(** ** What every state of the pi parser satisfies *)

Module ParserInvariants.
Import Json Props JsFacts PiFacts Invariants.

Lemma trimEnd_idem s : Js.trimEnd (Js.trimEnd s) = Js.trimEnd s.
Proof.
  induction s as [| c s IH]; [done|]. cbn [Js.trimEnd].
  destruct (Js.trimEnd s) as [| d t] eqn:Ht.
  - destruct (Js.is_ws c) eqn:Hc; [done|]. cbn. by rewrite Hc.
  - simpl in *. by rewrite IH.
Qed.

Lemma trimStart_headNotWs s : headNotWs (Js.trimStart s) = true.
Proof.
  induction s as [| c s IH]; [done|]. cbn [Js.trimStart].
  destruct (Js.is_ws c) eqn:Hc; [done|]. cbn. by rewrite Hc.
Qed.

Lemma trimEnd_headNotWs s : headNotWs s = true -> headNotWs (Js.trimEnd s) = true.
Proof.
  destruct s as [| c s]; [done|]. cbn [Js.trimEnd headNotWs].
  destruct (Js.trimEnd s); [| done].
  destruct (Js.is_ws c) eqn:Hc; [done|]. cbn. by rewrite Hc.
Qed.

Lemma trimStart_id s : headNotWs s = true -> Js.trimStart s = s.
Proof.
  destruct s as [| c s]; [done|]. cbn. intros Hc%negb_true_iff. by rewrite Hc.
Qed.

(** [trim] is idempotent. *)
Lemma trim_idem s : Js.trim (Js.trim s) = Js.trim s.
Proof.
  unfold Js.trim.
  rewrite (trimStart_id (Js.trimEnd (Js.trimStart s))).
  - apply trimEnd_idem.
  - apply trimEnd_headNotWs, trimStart_headNotWs.
Qed.

Lemma messageText_trimmed msg t : messageText msg = Some t -> Js.trim t = t.
Proof.
  unfold messageText.
  destruct (prop msg "content") as [[| | | | items |]|]; try discriminate.
  intros [= <-]. apply trim_idem.
Qed.

Lemma noAdjacentRepeat_snoc l t :
  noAdjacentRepeat l -> last l <> Some t -> noAdjacentRepeat (l ++ [t]).
Proof.
  intros Hl Hlast i a b Ha Hb.
  destruct (decide (S i < length l)) as [Hi | Hi].
  - rewrite lookup_app_l in Ha by lia. rewrite lookup_app_l in Hb by lia.
    by apply (Hl i).
  - assert (Hlen : S i = length l).
    { apply lookup_lt_Some in Hb. rewrite length_app in Hb. cbn in Hb. lia. }
    rewrite lookup_app_l in Ha by lia.
    rewrite lookup_app_r in Hb by lia.
    replace (S i - length l)%nat with 0%nat in Hb by lia.
    injection Hb as <-. intros ->. apply Hlast.
    rewrite last_lookup. by replace (pred (length l)) with i by lia.
Qed.

Section Reachable.
Variable JSON_parse : string -> completion json.
Local Abbreviation step := (Pi.step JSON_parse).
Local Abbreviation parseLines := (Pi.parseLines JSON_parse).

Lemma reachable_initial : reachable Pi.initialState.
Proof.
  split; [done|]. split; [| split]; try by constructor.
  intros i a b Ha. done.
Qed.

Lemma reachable_step st line : reachable st -> reachable (step st line).
Proof.
  intros (Hlast & Hrep & Htexts & Htools).
  destruct (step_inv JSON_parse st line)
    as [-> | [(ev&msg&t&_&_&Ht&Hne&Hnew&->) | (ev&msg&t&_&_&Ht&Hne&->)]].
  - done.
  - unfold pushText, reachable; cbn. split; [by rewrite last_snoc|].
    split; [| split; [| done]].
    + apply noAdjacentRepeat_snoc; [done | by rewrite <- Hlast].
    + apply Forall_app. split; [done|]. constructor; [| constructor].
      split; [done | by apply (messageText_trimmed msg)].
  - unfold pushTool, reachable; cbn. split; [done|]. split; [done|].
    split; [done|]. apply Forall_app. split; [done|].
    constructor; [| constructor].
    split; [done | by apply (messageText_trimmed msg)].
Qed.

Lemma reachable_fold lines st :
  reachable st -> reachable (fold_left step lines st).
Proof.
  revert st. induction lines as [| l ls IH]; intros st H; [done|].
  cbn. apply IH. by apply reachable_step.
Qed.

Lemma reachable_parseLines lines : reachable (parseLines lines).
Proof. apply reachable_fold, reachable_initial. Qed.


Lemma texts_fold_prefix lines st :
  Pi.texts st `prefix_of` Pi.texts (fold_left step lines st) /\
  Pi.toolResults st `prefix_of` Pi.toolResults (fold_left step lines st).
Proof.
  revert st. induction lines as [| l ls IH]; intros st; [done|].
  cbn [fold_left]. destruct (IH (step st l)) as [H1 H2].
  split; (etrans; [| done]);
    destruct (step_inv JSON_parse st l)
      as [-> | [(ev&msg&t&_&_&_&_&_&->) | (ev&msg&t&_&_&_&_&->)]];
    cbn; try done; by apply prefix_app_r.
Qed.

(** Every element of [toolResults] is the text of a completed tool-role
    message of the stream. *)
Lemma toolResults_from_tool lines t :
  t ∈ Pi.toolResults (parseLines lines) ->
  exists line ev msg,
    line ∈ lines /\ JSON_parse line = Returns ev /\
    toolMessage ev msg /\ messageText msg = Some t.
Proof.
  induction lines as [| l ls IH] using rev_ind.
  - cbn. by intros ?%elem_of_nil.
  - rewrite parseLines_snoc.
    destruct (step_inv JSON_parse (parseLines ls) l)
      as [-> | [(?&?&?&_&_&_&_&_&->) | (ev&msg&t'&Hp&Ha&Ht&_&->)]]; cbn.
    + intros (line&ev&msg&?&?)%IH. exists line, ev, msg.
      split; [apply elem_of_app; by left | done].
    + intros (line&ev&msg&?&?)%IH. exists line, ev, msg.
      split; [apply elem_of_app; by left | done].
    + intros [Hin | ->%list_elem_of_singleton]%elem_of_app.
      * destruct (IH Hin) as (line&ev'&msg'&?&?). exists line, ev', msg'.
        split; [apply elem_of_app; by left | done].
      * exists l, ev, msg. split; [| done].
        apply elem_of_app; right. by apply list_elem_of_singleton.
Qed.

(** A line that carries neither a completed assistant message nor a
    completed tool-role message leaves the state as it is. *)
Lemma step_other st line :
  (forall ev msg, JSON_parse line = Returns ev -> ~ assistantMessage ev msg) ->
  (forall ev msg, JSON_parse line = Returns ev -> ~ toolMessage ev msg) ->
  step st line = st.
Proof.
  intros Ha Ht.
  destruct (step_inv JSON_parse st line)
    as [-> | [(ev&msg&t&Hp&Hm&_) | (ev&msg&t&Hp&Hm&_)]]; [done | |].
  - by destruct (Ha ev msg Hp).
  - by destruct (Ht ev msg Hp).
Qed.

End Reachable.

Lemma splitNewlinesFrom_sep b :
  List.filter candidate (Js.splitNewlinesFrom b "" true) =
  List.filter candidate (Js.splitNewlinesFrom b "" false).
Proof.
  destruct b as [| c b]; [done|]. cbn [Js.splitNewlinesFrom].
  by destruct (Ascii.eqb c "010").
Qed.

Lemma candidateLines_chunks_from a b cur inSep :
  (inSep = true -> cur = "") ->
  List.filter candidate (Js.splitNewlinesFrom (chunks a b) cur inSep) =
  List.filter candidate (Js.splitNewlinesFrom a cur inSep) ++
  List.filter candidate (Js.splitNewlinesFrom b "" false).
Proof.
  unfold chunks. revert cur inSep.
  induction a as [| c a IH]; intros cur inSep Hinv.
  - rewrite append_empty_l. cbn [Js.splitNewlinesFrom Ascii.eqb Bool.eqb].
    destruct inSep.
    + rewrite (Hinv eq_refl). cbn. apply splitNewlinesFrom_sep.
    + cbn [List.filter]. rewrite splitNewlinesFrom_sep.
      by destruct (candidate (String.rev cur)).
  - rewrite append_cons. cbn [Js.splitNewlinesFrom].
    destruct (Ascii.eqb c "010").
    + destruct inSep.
      * by apply IH.
      * cbn [List.filter]. rewrite IH by done.
        by destruct (candidate (String.rev cur)).
    + by apply IH.
Qed.

(** The candidate lines of two chunks are those of the first followed by
    those of the second. *)
Lemma candidateLines_chunks a b :
  Pi.candidateLines (chunks a b) = Pi.candidateLines a ++ Pi.candidateLines b.
Proof. by apply candidateLines_chunks_from. Qed.

Lemma candidateLines_singleLine l :
  singleLine l = true ->
  Pi.candidateLines l = if candidate l then [l] else [].
Proof.
  intros Hl.
  change l with (streamOf [l]) at 1.
  rewrite candidateLines_stream by (by constructor).
  reflexivity.
Qed.

End ParserInvariants.

(** ** Laws of the pi parser *)

Module ParserLaws.
Import Json Props JsFacts PiFacts Invariants ParserInvariants.

Lemma filterBoolean_clean ts :
  Forall cleanText ts -> Js.filterBoolean (map Js.trim ts) = ts.
Proof.
  induction 1 as [| t ts [Hne Ht] _ IH]; [done|].
  cbn. rewrite Ht. apply nonEmpty_true in Hne.
  unfold Js.filterBoolean in *. cbn. rewrite Hne. by f_equal.
Qed.

Section Laws.
Variable JSON_parse : string -> completion json.
Local Abbreviation step := (Pi.step JSON_parse).
Local Abbreviation parseLines := (Pi.parseLines JSON_parse).
Local Abbreviation parsePiJson := (Pi.parsePiJson JSON_parse).

(** X1.  The texts of the pi parser never hold the same text twice in a
    row, whatever the stream. *)
Theorem X1_pi_texts_no_adjacent_repeat raw :
  noAdjacentRepeat (Agent.texts (parsePiJson raw)).
Proof.
  destruct (reachable_parseLines JSON_parse (Pi.candidateLines raw))
    as (_ & H & _).
  exact H.
Qed.

(** X2.  Every text and every tool result of the pi parser is non-empty and
    already trimmed; [toolResults] is never an empty list; the trimming and
    filtering of the reply engine leaves both lists as they are. *)
Theorem X2_pi_results_trimmed_nonempty raw :
  Forall cleanText (Agent.texts (parsePiJson raw)) /\
  Agent.toolResults (parsePiJson raw) <> Some [] /\
  Forall cleanText (default [] (Agent.toolResults (parsePiJson raw))) /\
  CommandReply.trimmedNonEmpty (Agent.texts (parsePiJson raw)) =
    Agent.texts (parsePiJson raw) /\
  CommandReply.trimmedNonEmpty
    (default [] (Agent.toolResults (parsePiJson raw))) =
    default [] (Agent.toolResults (parsePiJson raw)).
Proof.
  destruct (reachable_parseLines JSON_parse (Pi.candidateLines raw))
    as (_ & _ & Ht & Hr).
  unfold Pi.parsePiJson, Pi.resultOf; cbn [Agent.texts Agent.toolResults].
  assert (Hd : default [] match Pi.toolResults
                                  (parseLines (Pi.candidateLines raw)) with
                          | [] => None
                          | trs => Some trs
                          end
               = Pi.toolResults (parseLines (Pi.candidateLines raw))).
  { by destruct (Pi.toolResults _). }
  rewrite Hd. split; [done|]. split; [by destruct (Pi.toolResults _)|].
  split; [done|]. unfold CommandReply.trimmedNonEmpty.
  split; by apply filterBoolean_clean.
Qed.

(** X3.  Feeding the parser two chunks of output joined by a newline is
    the same as running its loop over the lines of the first and then over
    the lines of the second: the texts and the tool results of the first
    chunk are a prefix of those of the whole. *)
Theorem X3_pi_parser_chunks a b :
  parsePiJson (chunks a b) =
    Pi.resultOf (fold_left step (Pi.candidateLines b)
                   (parseLines (Pi.candidateLines a))) /\
  Agent.texts (parsePiJson a) `prefix_of`
    Agent.texts (parsePiJson (chunks a b)) /\
  default [] (Agent.toolResults (parsePiJson a)) `prefix_of`
    default [] (Agent.toolResults (parsePiJson (chunks a b))).
Proof.
  unfold Pi.parsePiJson. rewrite candidateLines_chunks, parseLines_app.
  split; [done|].
  destruct (texts_fold_prefix JSON_parse (Pi.candidateLines b)
              (parseLines (Pi.candidateLines a))) as [H1 H2].
  split; [exact H1|].
  unfold Pi.resultOf; cbn [Agent.toolResults].
  set (x := Pi.toolResults (parseLines _)) in *.
  set (y := Pi.toolResults (fold_left _ _ _)) in *.
  by destruct x, y.
Qed.

(** X4.  A line that does not start with a brace after trimming (a log
    line, a blank line) is never given to [JSON.parse]: with or without
    it, between any two chunks, the result is the same. *)
Theorem X4_pi_parser_skips_noise a l b :
  singleLine l = true -> candidate l = false ->
  parsePiJson (chunks a (chunks l b)) = parsePiJson (chunks a b).
Proof.
  intros Hl Hc. unfold Pi.parsePiJson.
  rewrite !candidateLines_chunks, (candidateLines_singleLine l Hl), Hc.
  done.
Qed.

(** X5.  Every element of [toolResults] is the trimmed text of a completed
    message whose role contains "tool", found on one of the lines given to
    [JSON.parse]. *)
Theorem X5_pi_tool_results_provenance raw trs t :
  Agent.toolResults (parsePiJson raw) = Some trs -> t ∈ trs ->
  exists line ev msg,
    line ∈ Pi.candidateLines raw /\ JSON_parse line = Returns ev /\
    toolMessage ev msg /\ messageText msg = Some t.
Proof.
  unfold Pi.parsePiJson, Pi.resultOf; cbn [Agent.toolResults].
  intros H Hin. apply toolResults_from_tool.
  destruct (Pi.toolResults _); [done|]. by injection H as <-.
Qed.

(** X6.  An event that is neither a completed assistant message nor a
    completed tool-role message (a streaming update, a turn marker, a
    user message) changes nothing: the result is the same without its
    line. *)
Theorem X6_pi_parser_ignores_other_events before line after :
  singleLines (before ++ line :: after) ->
  (forall ev msg, JSON_parse line = Returns ev -> ~ assistantMessage ev msg) ->
  (forall ev msg, JSON_parse line = Returns ev -> ~ toolMessage ev msg) ->
  parsePiJson (streamOf (before ++ line :: after)) =
  parsePiJson (streamOf (before ++ after)).
Proof.
  intros Hs Ha Ht.
  assert (Hs' : singleLines (before ++ after)).
  { apply Forall_app in Hs as [H1 H2]. apply Forall_app. split; [done|].
    by inversion H2. }
  rewrite !parsePiJson_stream by done.
  rewrite !filter_candidate_app. cbn [List.filter].
  destruct (candidate line); [| done].
  rewrite !parseLines_app. cbn [fold_left].
  by rewrite (step_other JSON_parse _ line Ha Ht).
Qed.

End Laws.

End ParserLaws.

(** ** The flags of the pi agent *)

Module BuildArgsFacts.
Import Json Props JsFacts Agent Invariants.

(** *** Lists as argv *)

Lemma argvIncludes_app x l1 l2 :
  Pi.argvIncludes x (l1 ++ l2) = Pi.argvIncludes x l1 || Pi.argvIncludes x l2.
Proof. apply existsb_app. Qed.

Lemma argvIncludes_splice x i items l :
  Pi.argvIncludes x (Js.spliceInsert i items l) =
  Pi.argvIncludes x items || Pi.argvIncludes x l.
Proof.
  unfold Js.spliceInsert. rewrite !argvIncludes_app.
  rewrite <- (take_drop i l) at 3. rewrite argvIncludes_app.
  destruct (Pi.argvIncludes x (take i l)), (Pi.argvIncludes x items),
    (Pi.argvIncludes x (drop i l)); reflexivity.
Qed.

Lemma length_splice {A} i (items l : list A) :
  length (Js.spliceInsert i items l) = (length items + length l)%nat.
Proof.
  unfold Js.spliceInsert. rewrite !length_app.
  rewrite <- (take_drop i l) at 3. rewrite length_app. lia.
Qed.

Lemma sublist_splice {A} i (items l : list A) :
  l `sublist_of` Js.spliceInsert i items l.
Proof.
  unfold Js.spliceInsert. rewrite <- (take_drop i l) at 1.
  apply sublist_app; [done|]. by apply sublist_inserts_l.
Qed.

Lemma spliceBeforeLast_snoc {A} (items init : list A) (x : A) :
  Js.spliceBeforeLast items (init ++ [x]) = init ++ items ++ [x].
Proof.
  unfold Js.spliceBeforeLast, Js.spliceInsert. rewrite length_app. cbn.
  replace (length init + 1 - 1)%nat with (length init) by lia.
  by rewrite take_app_length, drop_app_length.
Qed.

Lemma existsb_mode argv :
  existsb (fun a => String.eqb a "--mode") argv = Pi.argvIncludes "--mode" argv.
Proof.
  unfold Pi.argvIncludes. induction argv as [| a l IH]; [done|]. cbn.
  by rewrite IH, (String.eqb_sym a).
Qed.

(** *** [piSpec.buildArgs] *)

Lemma buildArgs_steps ctx :
  Pi.buildArgs ctx =
  let argv := withMode (ctx_format ctx) (withPrint (ctx_argv ctx)) in
  match argv !! ctx_bodyIndex ctx with
  | Some existingBody =>
      if negb (ctx_sendSystemOnce ctx && ctx_systemSent ctx) &&
         Js.nonEmpty existingBody
      then <[ctx_bodyIndex ctx :=
               Js.join (String "010" (String "010" ""))
                 (Js.filterBoolean
                    [default "" (ctx_identityPrefix ctx); existingBody])]> argv
      else argv
  | None => argv
  end.
Proof.
  unfold Pi.buildArgs, withMode, withPrint.
  destruct (ctx_format ctx) as [[]|]; try reflexivity.
  rewrite existsb_mode. by rewrite andb_diag.
Qed.

Lemma withPrint_includes argv :
  Pi.argvIncludes "-p" (withPrint argv) || Pi.argvIncludes "--print" (withPrint argv)
  = true.
Proof.
  unfold withPrint.
  destruct (Pi.argvIncludes "-p" argv) eqn:H1; cbn [negb andb];
    [by rewrite H1|].
  destruct (Pi.argvIncludes "--print" argv) eqn:H2; cbn [negb andb];
    [by rewrite H1, H2|].
  unfold Js.spliceBeforeLast. by rewrite argvIncludes_splice.
Qed.

Lemma withPrint_id argv :
  Pi.argvIncludes "-p" argv || Pi.argvIncludes "--print" argv = true ->
  withPrint argv = argv.
Proof.
  unfold withPrint. intros H.
  destruct (Pi.argvIncludes "-p" argv), (Pi.argvIncludes "--print" argv);
    done.
Qed.

Lemma withMode_keeps x format argv :
  Pi.argvIncludes x argv = true -> Pi.argvIncludes x (withMode format argv) = true.
Proof.
  intros H. unfold withMode. destruct format as [[]|]; try done.
  destruct (negb _); [| done].
  unfold Js.spliceBeforeLast. rewrite argvIncludes_splice, H. apply orb_true_r.
Qed.

Lemma withMode_includes argv :
  Pi.argvIncludes "--mode" (withMode (Some json_format) argv) = true.
Proof.
  unfold withMode.
  destruct (Pi.argvIncludes "--mode" argv) eqn:H; cbn [negb]; [done|].
  unfold Js.spliceBeforeLast. by rewrite argvIncludes_splice.
Qed.

Lemma withMode_id format argv :
  (format = Some json_format -> Pi.argvIncludes "--mode" argv = true) ->
  withMode format argv = argv.
Proof.
  unfold withMode. destruct format as [[]|]; try done.
  intros H. by rewrite H.
Qed.

Lemma withPrint_sublist argv : argv `sublist_of` withPrint argv.
Proof. unfold withPrint. destruct (_ && _); [apply sublist_splice | done]. Qed.

Lemma withMode_sublist format argv : argv `sublist_of` withMode format argv.
Proof.
  unfold withMode. destruct format as [[]|]; try done.
  destruct (negb _); [apply sublist_splice | done].
Qed.

Lemma withFlags_length format argv :
  (length argv <= length (withMode format (withPrint argv)) <= length argv + 3)%nat.
Proof.
  unfold withMode, withPrint, Js.spliceBeforeLast.
  destruct (_ && _); destruct format as [[]|]; try destruct (negb _);
    rewrite ?length_splice; cbn; lia.
Qed.

Lemma buildArgs_noPrefix ctx :
  noIdentityPrefix ctx ->
  Pi.buildArgs ctx = withMode (ctx_format ctx) (withPrint (ctx_argv ctx)).
Proof.
  intros Hno. rewrite buildArgs_steps. cbn zeta.
  set (argv := withMode _ _).
  destruct (argv !! ctx_bodyIndex ctx) as [b|] eqn:Hb; [| done].
  destruct Hno as [[-> ->] | Hp]; [done|].
  destruct (negb _ && Js.nonEmpty b) eqn:Hc; [| done].
  apply andb_true_iff in Hc as [_ Hne].
  apply nonEmpty_false in Hp. rewrite Hp. unfold Js.filterBoolean. cbn.
  rewrite Hne. cbn. by apply list_insert_id.
Qed.

Lemma withFlags_snoc format init body :
  withMode format (withPrint (init ++ [body])) =
  init ++ insertedFlags format (init ++ [body]) ++ [body].
Proof.
  unfold withMode, withPrint, insertedFlags.
  destruct (negb (Pi.argvIncludes "-p" (init ++ [body])) &&
            negb (Pi.argvIncludes "--print" (init ++ [body]))) eqn:Hp.
  - rewrite spliceBeforeLast_snoc.
    assert (Hm : Pi.argvIncludes "--mode" (init ++ ["-p"] ++ [body]) =
                 Pi.argvIncludes "--mode" (init ++ [body])).
    { rewrite !argvIncludes_app.
      change (Pi.argvIncludes "--mode" ["-p"]) with false. reflexivity. }
    destruct format as [[]|]; try done. rewrite Hm.
    destruct (negb (Pi.argvIncludes "--mode" (init ++ [body]))); [| done].
    rewrite (app_assoc init ["-p"] [body]), spliceBeforeLast_snoc.
    by rewrite <- app_assoc.
  - destruct format as [[]|]; try done.
    destruct (negb (Pi.argvIncludes "--mode" (init ++ [body]))); [| done].
    by rewrite spliceBeforeLast_snoc.
Qed.

Lemma insertedFlags_nonEmpty format argv f :
  f ∈ insertedFlags format argv -> f <> "".
Proof.
  unfold insertedFlags.
  destruct (_ && _); destruct format as [[]|]; try destruct (negb _);
    cbn; rewrite ?elem_of_cons, ?elem_of_nil; intros H;
    repeat destruct H as [-> | H]; done.
Qed.

(** X8.  The pi [buildArgs] keeps every argument in order, adds at most
    three, and, when it has no identity prefix to place, ends with argv
    naming a print flag (and a mode under [format = json]); applying it
    again changes nothing. *)
Theorem X8_pi_buildArgs_adds_flags_once (ctx : BuildArgsContext) :
  (length (ctx_argv ctx) <= length (Pi.buildArgs ctx) <=
   length (ctx_argv ctx) + 3)%nat /\
  (noIdentityPrefix ctx ->
   ctx_argv ctx `sublist_of` Pi.buildArgs ctx /\
   Pi.argvIncludes "-p" (Pi.buildArgs ctx) ||
     Pi.argvIncludes "--print" (Pi.buildArgs ctx) = true /\
   (ctx_format ctx = Some json_format ->
    Pi.argvIncludes "--mode" (Pi.buildArgs ctx) = true) /\
   Pi.buildArgs (withArgv ctx (Pi.buildArgs ctx)) = Pi.buildArgs ctx).
Proof.
  split.
  - rewrite buildArgs_steps. cbn zeta.
    pose proof (withFlags_length (ctx_format ctx) (ctx_argv ctx)) as Hlen.
    destruct (_ !! _); [destruct (_ && _)|]; rewrite ?length_insert; done.
  - intros Hno. rewrite (buildArgs_noPrefix ctx Hno).
    set (out := withMode _ _).
    assert (Hprint : Pi.argvIncludes "-p" out || Pi.argvIncludes "--print" out
                     = true).
    { pose proof (withPrint_includes (ctx_argv ctx)) as H.
      apply orb_true_iff in H as [H | H];
        apply (withMode_keeps _ (ctx_format ctx)) in H; fold out in H;
        rewrite H; [done | apply orb_true_r]. }
    assert (Hmode : ctx_format ctx = Some json_format ->
                    Pi.argvIncludes "--mode" out = true).
    { intros Hf. unfold out. rewrite Hf. apply withMode_includes. }
    split; [| split; [done | split; [done|]]].
    + etrans; [apply withPrint_sublist | apply withMode_sublist].
    + rewrite buildArgs_noPrefix by (destruct Hno; [by left | by right]).
      cbn [withArgv ctx_argv ctx_format].
      by rewrite (withPrint_id out Hprint), (withMode_id _ out Hmode).
Qed.

(** X9.  Where the identity prefix goes.  [buildArgs] is given the index of
    the last argument; when it inserts no flag the prefix is joined onto
    that argument, the body, with an empty line between; when it inserts
    flags the index points at the first of them, the prefix is joined onto
    that flag, and the body is left as it was. *)
Theorem X9_pi_buildArgs_identity_prefix
    (ctx : BuildArgsContext) (init : list string) (body P : string) :
  ctx_argv ctx = init ++ [body] -> ctx_bodyIndex ctx = length init ->
  body <> "" -> ctx_identityPrefix ctx = Some P -> P <> "" ->
  ctx_sendSystemOnce ctx && ctx_systemSent ctx = false ->
  Pi.buildArgs ctx =
  init ++
  match insertedFlags (ctx_format ctx) (init ++ [body]) with
  | [] => [prefixed P body]
  | flag :: flags => prefixed P flag :: flags ++ [body]
  end.
Proof.
  intros Hargv Hidx Hbody HP HPne Hsent.
  rewrite buildArgs_steps. cbn zeta.
  rewrite Hargv, Hidx, HP, Hsent, withFlags_snoc. cbn [negb andb].
  change (default "" (Some P)) with P.
  apply nonEmpty_true in HPne.
  destruct (insertedFlags (ctx_format ctx) (init ++ [body])) as [| f fs] eqn:Hf.
  - cbn [app]. rewrite list_lookup_middle by done.
    apply nonEmpty_true in Hbody. rewrite Hbody.
    unfold Js.filterBoolean. cbn [List.filter]. rewrite HPne, Hbody.
    rewrite insert_app_r_alt by lia.
    by replace (length init - length init)%nat with 0%nat by lia.
  - assert (Hfne : Js.nonEmpty f = true).
    { apply nonEmpty_true, (insertedFlags_nonEmpty (ctx_format ctx) (init ++ [body])).
      rewrite Hf. by left. }
    cbn [app]. rewrite list_lookup_middle by done. rewrite Hfne.
    unfold Js.filterBoolean. cbn [List.filter]. rewrite HPne, Hfne.
    rewrite insert_app_r_alt by lia.
    by replace (length init - length init)%nat with 0%nat by lia.
Qed.

End BuildArgsFacts.

(** ** The pi matcher and the argv of the RPC process *)

Module InvocationFacts.
Import Json Props JsFacts Agent Invariants.

(** *** [path.basename] *)

Lemma rev_app_append s acc : String.rev_app s acc = String.rev_app s "" +:+ acc.
Proof.
  revert acc. induction s as [| c s IH]; intros acc; [done|]. cbn.
  rewrite (IH (String c acc)), (IH (String c "")).
  by rewrite append_assoc.
Qed.

Lemma rev_app_app a b acc :
  String.rev_app (a +:+ b) acc = String.rev_app b (String.rev_app a acc).
Proof.
  revert acc. induction a as [| c a IH]; intros acc; [done|].
  rewrite append_cons. cbn. apply IH.
Qed.

Lemma noSlash_append a b : noSlash (a +:+ b) = noSlash a && noSlash b.
Proof.
  induction a as [| c a IH]; [done|]. rewrite append_cons. cbn.
  by rewrite IH, andb_assoc.
Qed.

Lemma noSlash_rev_app s acc :
  noSlash (String.rev_app s acc) = noSlash s && noSlash acc.
Proof.
  revert acc. induction s as [| c s IH]; intros acc; [done|]. cbn.
  rewrite IH. cbn. destruct (Path.isSlash c), (noSlash s); reflexivity.
Qed.

Lemma takeToSlash_append r rest :
  noSlash r = true -> Path.takeToSlash (r +:+ String "/" rest) = r.
Proof.
  induction r as [| c r IH]; [done|]. rewrite append_cons. cbn.
  intros [Hc Hr]%andb_true_iff. apply negb_true_iff in Hc. rewrite Hc.
  by rewrite IH.
Qed.

Lemma takeToSlash_noSlash r : noSlash r = true -> Path.takeToSlash r = r.
Proof.
  induction r as [| c r IH]; [done|]. cbn.
  intros [Hc Hr]%andb_true_iff. apply negb_true_iff in Hc. rewrite Hc.
  by rewrite IH.
Qed.

Lemma dropSlashes_noSlash r rest :
  noSlash r = true -> r <> "" -> Path.dropSlashes (r +:+ rest) = r +:+ rest.
Proof.
  destruct r as [| c r]; [done|]. rewrite append_cons. cbn.
  intros [Hc _]%andb_true_iff _. apply negb_true_iff in Hc. by rewrite Hc.
Qed.

Lemma rev_app_nonEmpty s : s <> "" -> String.rev_app s "" <> "".
Proof.
  destruct s as [| c s]; [done|]. intros _. cbn.
  rewrite rev_app_append. destruct (String.rev_app s ""); done.
Qed.

(** The basename of a file name under a directory is the file name. *)
Lemma basename_in_dir dir name :
  noSlash name = true -> name <> "" ->
  Path.basename (dir +:+ String "/" name) = name.
Proof.
  intros Hn Hne. unfold Path.basename, String.rev.
  change (String "/" name) with ("/" +:+ name).
  rewrite !rev_app_app. cbn [String.rev_app].
  rewrite (rev_app_append name).
  assert (Hr : noSlash (String.rev_app name "") = true).
  { by rewrite noSlash_rev_app, Hn. }
  rewrite dropSlashes_noSlash; [| done | by apply rev_app_nonEmpty].
  rewrite takeToSlash_append by done.
  apply rev_rev_app.
Qed.

Lemma basename_plain name : noSlash name = true -> Path.basename name = name.
Proof.
  intros Hn. unfold Path.basename, String.rev.
  assert (Hr : noSlash (String.rev_app name "") = true).
  { by rewrite noSlash_rev_app, Hn. }
  destruct (decide (name = "")) as [-> | Hne]; [done|].
  rewrite <- (append_empty_r (String.rev_app name "")) at 1.
  rewrite dropSlashes_noSlash; [| done | by apply rev_app_nonEmpty].
  rewrite append_empty_r, takeToSlash_noSlash by done.
  apply rev_rev_app.
Qed.

(** X7.  The pi matcher looks at the file name of [argv[0]] only: neither
    the directory nor the other arguments matter; the empty argv is not an
    invocation. *)
Theorem X7_pi_matcher_ignores_directory
    (dir name : string) (rest : list string) :
  noSlash name = true -> name <> "" ->
  Pi.isInvocation ((dir +:+ String "/" name) :: rest) = Pi.isInvocation [name] /\
  Pi.isInvocation (name :: rest) = Pi.isInvocation [name] /\
  Pi.isInvocation [] = false.
Proof.
  intros Hn Hne. unfold Pi.isInvocation.
  by rewrite basename_in_dir, basename_plain.
Qed.

(** *** The argv of the RPC process *)

Lemma indexOf_lookup x l i :
  CommandReply.indexOf x l = Some i ->
  l !! i = Some x /\ CommandReply.indexOf x (take i l) = None.
Proof.
  revert i. induction l as [| y l IH]; intros i; [done|]. cbn.
  destruct (String.eqb y x) eqn:Hy.
  - intros [= <-]. apply String.eqb_eq in Hy as ->. done.
  - destruct (CommandReply.indexOf x l) as [j|] eqn:Hj; [| done].
    cbn. intros [= <-]. destruct (IH j eq_refl) as [H1 H2]. cbn.
    by rewrite Hy, H2.
Qed.

Lemma indexOf_app_first x l1 l2 :
  CommandReply.indexOf x l1 = None ->
  CommandReply.indexOf x (l1 ++ x :: l2) = Some (length l1).
Proof.
  induction l1 as [| y l1 IH]; cbn.
  - by rewrite String.eqb_refl.
  - destruct (String.eqb y x); [done|].
    destruct (CommandReply.indexOf x l1); [done|]. intros _.
    by rewrite IH.
Qed.

(** X10.  The argv of the RPC process always names a mode, and the value
    after its first [--mode], when there is a non-empty one, is [rpc]; it
    is made from the final argv without its last argument, the prompt. *)
Theorem X10_rpc_argv_mode (finalArgv : list string) :
  exists i,
    CommandReply.indexOf "--mode" (CommandReply.rpcArgvOf finalArgv) = Some i /\
    (CommandReply.rpcArgvOf finalArgv !! S i = Some "rpc" \/
     CommandReply.truthyString (CommandReply.rpcArgvOf finalArgv !! S i) = false /\
     CommandReply.rpcArgvOf finalArgv =
       take (length finalArgv - 1) finalArgv).
Proof.
  unfold CommandReply.rpcArgvOf.
  assert (Hcopy : take (length finalArgv - 1) finalArgv ++
                  drop (S (length finalArgv - 1)) finalArgv =
                  take (length finalArgv - 1) finalArgv).
  { rewrite drop_ge by lia. apply app_nil_r. }
  rewrite Hcopy. set (copy := take _ finalArgv).
  destruct (CommandReply.indexOf "--mode" copy) as [i|] eqn:Hi.
  - destruct (indexOf_lookup _ _ _ Hi) as [Hat Hbefore].
    assert (Hlen : length (take i copy) = i).
    { apply length_take_le. apply lookup_lt_Some in Hat. lia. }
    destruct (CommandReply.truthyString (copy !! S i)) eqn:Hnext.
    + exists i. split.
      * pose proof (indexOf_app_first "--mode" (take i copy)
                      ("rpc" :: drop (i + 2) copy) Hbefore) as H.
        by rewrite Hlen in H.
      * left. rewrite lookup_app_r; rewrite Hlen; [| lia].
        by replace (S i - i)%nat with 1%nat by lia.
    + exists i. split; [done|]. by right.
  - exists (length copy - 1)%nat.
    unfold Js.spliceBeforeLast, Js.spliceInsert.
    assert (Hlen : length (take (length copy - 1) copy) = (length copy - 1)%nat).
    { apply length_take_le. lia. }
    split.
    + assert (Hnone : CommandReply.indexOf "--mode"
                        (take (length copy - 1) copy) = None).
      { clear -Hi. revert Hi. generalize (length copy - 1)%nat.
        clearbody copy. intros n Hi. revert n.
        induction copy as [| y l IH]; intros [| n]; try done.
        cbn in *. destruct (String.eqb y "--mode"); [done|].
        destruct (CommandReply.indexOf "--mode" l) eqn:Hl; [done|].
        by rewrite (IH eq_refl n). }
      pose proof (indexOf_app_first "--mode" _
                    ("rpc" :: drop (length copy - 1) copy) Hnone) as H.
      by rewrite Hlen in H.
    + left. rewrite lookup_app_r by lia. rewrite Hlen.
      by replace (S (length copy - 1) - (length copy - 1))%nat with 1%nat by lia.
Qed.

End InvocationFacts.

(** ** The argv handed to the agent *)

Module ArgvInvariants.
Import Json Props JsFacts Agent CommandReply Invariants BuildArgsFacts.

Section Prepared.
Variable applyTemplate : string -> TemplateContext -> string.
Variable getAgentSpec : AgentKind -> AgentSpec.

Local Abbreviation templated :=
  (fun p cmd => map (fun part => applyTemplate part (templatingCtx p)) cmd).
Local Abbreviation prepared := (preparedArgv applyTemplate).

Lemma templatedArgv_cases p cmd :
  templatedArgv applyTemplate p cmd = templated p cmd \/
  exists argv0 rest prefix,
    templated p cmd = argv0 :: rest /\
    templatedArgv applyTemplate p cmd = argv0 :: prefix :: rest.
Proof.
  unfold templatedArgv.
  destruct (map _ cmd) as [| argv0 rest]; [by left|].
  destruct (Js.nonEmpty _); [right; by eexists _, _, _ | by left].
Qed.

Lemma templatedArgv_sublist p cmd :
  templated p cmd `sublist_of` templatedArgv applyTemplate p cmd.
Proof.
  destruct (templatedArgv_cases p cmd) as [-> | (a & r & x & -> & ->)]; [done|].
  apply sublist_skip. by apply sublist_cons.
Qed.

Lemma templatedArgv_head p cmd :
  head (templatedArgv applyTemplate p cmd) = head (templated p cmd).
Proof.
  by destruct (templatedArgv_cases p cmd) as [-> | (a & r & x & -> & ->)].
Qed.

Lemma templatedArgv_length p cmd :
  (length cmd <= length (templatedArgv applyTemplate p cmd))%nat.
Proof.
  pose proof (sublist_length _ _ (templatedArgv_sublist p cmd)) as H.
  by rewrite length_map in H.
Qed.

Lemma injectSessionArgs_cases p argv :
  injectSessionArgs applyTemplate p argv = argv \/
  exists i args,
    (1 <= i \/ argv = []) /\
    injectSessionArgs applyTemplate p argv = take i argv ++ args ++ drop i argv.
Proof.
  unfold injectSessionArgs.
  destruct (session (reply p)) as [s|]; [| by left].
  destruct (sessionArgList applyTemplate p s) as [| a args]; [by left|].
  right. eexists _, _. split; [| reflexivity].
  destruct argv as [| x argv]; [by right|]. left.
  destruct (_ && _) eqn:H; cbn [length]; [| lia].
  apply andb_true_iff in H as [_ H%Nat.ltb_lt]. cbn [length] in H. lia.
Qed.

Lemma injectSessionArgs_sublist p argv :
  argv `sublist_of` injectSessionArgs applyTemplate p argv.
Proof.
  destruct (injectSessionArgs_cases p argv) as [-> | (i & args & _ & ->)];
    [done|].
  apply (sublist_splice i args argv).
Qed.

Lemma injectSessionArgs_head p argv :
  argv <> [] -> head (injectSessionArgs applyTemplate p argv) = head argv.
Proof.
  intros Hne.
  destruct (injectSessionArgs_cases p argv) as [-> | (i & args & [Hi | ->] & ->)];
    try done.
  destruct argv as [| x argv]; [done|].
  destruct i as [| i]; [lia|]. done.
Qed.

Lemma applyThinking_length kind level argv :
  argv <> [] ->
  snd (applyThinking kind level argv (lastIndex argv)) =
  (length (fst (applyThinking kind level argv (lastIndex argv))) - 1)%nat /\
  fst (applyThinking kind level argv (lastIndex argv)) <> [].
Proof.
  intros Hne. unfold applyThinking, lastIndex.
  assert (Hlen : (0 < length argv)%nat) by (destruct argv; [done | cbn; lia]).
  destruct level as [[]|]; try done;
    destruct kind; try (destruct (argv !! _) as [b|]; [destruct (Js.nonEmpty b)|]);
    try (destruct (negb _)); cbn [fst snd];
    rewrite ?length_insert, ?length_splice; cbn [length];
    (split; [lia|]); try done;
    try (intros H; apply (f_equal length) in H;
         rewrite ?length_insert, ?length_splice in H; cbn in H; lia).
Qed.

Lemma applyThinking_head kind level argv :
  (2 <= length argv)%nat ->
  head (fst (applyThinking kind level argv (lastIndex argv))) = head argv.
Proof.
  intros Hlen. unfold applyThinking, lastIndex.
  destruct argv as [| x argv]; [cbn in Hlen; lia|].
  cbn [length] in *. replace (S (length argv) - 1)%nat with (length argv) by lia.
  destruct (length argv) as [| n] eqn:Hn; [lia|].
  destruct level as [[]|]; try done;
    destruct kind; try (destruct (_ !! _) as [b|]; [destruct (Js.nonEmpty b)|]);
    try (destruct (negb _)); try done.
Qed.

Lemma applyThinking_sublist kind level argv i :
  kind = pi \/ level = None \/ level = Some off ->
  argv `sublist_of` fst (applyThinking kind level argv i).
Proof.
  unfold applyThinking.
  intros [-> | [-> | ->]]; try done.
  destruct level as [[]|]; try done; destruct (negb _); try done;
    apply sublist_splice.
Qed.

(** X11.  The body index handed to the agent's [buildArgs] is always the
    index of the last argument of the argv handed with it. *)
Theorem X11_prepared_body_is_last p cmd :
  cmd <> [] ->
  fst (preparedArgv applyTemplate p cmd) <> [] /\
  snd (preparedArgv applyTemplate p cmd) =
    lastIndex (fst (preparedArgv applyTemplate p cmd)).
Proof.
  intros Hne. unfold preparedArgv.
  set (argv := injectSessionArgs applyTemplate p _).
  assert (Hargv : argv <> []).
  { intros H. pose proof (sublist_length _ _ (injectSessionArgs_sublist p
        (templatedArgv applyTemplate p cmd))) as Hl.
    fold argv in Hl. rewrite H in Hl. cbn in Hl.
    pose proof (templatedArgv_length p cmd). destruct cmd; [done | cbn in *; lia]. }
  destruct (applyThinking_length (agent_kind (agentCfgOf p)) (thinkLevel p)
              argv Hargv) as [H1 H2].
  done.
Qed.

(** X12.  The command reaches the agent.  For the pi agent, or with thinking
    off, every templated part of [reply.command] is in argv, in order; and
    when the command has a body argument besides the executable, the
    executable stays the first argument. *)
Theorem X12_prepared_keeps_command p cmd :
  (agent_kind (agentCfgOf p) = pi \/ thinkingOff p ->
   templated p cmd `sublist_of` fst (prepared p cmd)) /\
  ((2 <= length cmd)%nat ->
   head (fst (prepared p cmd)) = head (templated p cmd)).
Proof.
  unfold preparedArgv. split.
  - intros Hk.
    etrans; [apply templatedArgv_sublist|].
    etrans; [apply (injectSessionArgs_sublist p)|].
    apply applyThinking_sublist. unfold thinkingOff in Hk. tauto.
  - intros Hlen.
    pose proof (templatedArgv_length p cmd) as Hl1.
    pose proof (sublist_length _ _ (injectSessionArgs_sublist p
        (templatedArgv applyTemplate p cmd))) as Hl2.
    rewrite applyThinking_head by lia.
    rewrite injectSessionArgs_head.
    + apply templatedArgv_head.
    + intros H. rewrite H in Hl1. cbn in Hl1. lia.
Qed.

(** X13.  The system prompt is sent once.  With [sendSystemOnce], once the
    system prompt was sent and after the first turn of the session, the
    argv built for the pi agent is the one built without any template and
    without any identity prefix. *)
Theorem X13_system_prompt_sent_once JSON_parse p cmd :
  getAgentSpec pi = Pi.piSpec JSON_parse ->
  agent_kind (agentCfgOf p) = pi ->
  sendSystemOnce p = true -> systemSent p = true ->
  isFirstTurnInSession p = false ->
  finalArgvOf applyTemplate getAgentSpec p cmd =
  finalArgvOf applyTemplate getAgentSpec (withoutSystemPrompt p) cmd.
Proof.
  intros Hspec Hkind Honce Hsent Hfirst.
  assert (Hk' : agent_kind (agentCfgOf (withoutSystemPrompt p)) = pi).
  { revert Hkind. unfold agentCfgOf, withoutSystemPrompt. cbn.
    by destruct (agent (reply p)). }
  assert (Hprep : prepared (withoutSystemPrompt p) cmd = prepared p cmd).
  { unfold preparedArgv. rewrite Hk', Hkind.
    assert (Ht : templatedArgv applyTemplate (withoutSystemPrompt p) cmd =
                 templatedArgv applyTemplate p cmd).
    { unfold templatedArgv.
      cbn [reply withoutSystemPrompt template templatingCtx
           sendSystemOnce isFirstTurnInSession systemSent].
      rewrite Honce, Hsent, Hfirst. cbn [negb orb].
      destruct (template (reply p)) as [t|]; [| done].
      rewrite andb_false_r. by destruct (map _ cmd). }
    rewrite Ht.
    assert (Hi : forall argv,
               injectSessionArgs applyTemplate (withoutSystemPrompt p) argv =
               injectSessionArgs applyTemplate p argv).
    { intros argv. unfold injectSessionArgs, sessionArgList. cbn [reply withoutSystemPrompt session templatingCtx isNewSession].
      by rewrite Hk', Hkind. }
    by rewrite Hi. }
  unfold finalArgvOf. rewrite Hprep, Hk', Hkind, Hspec.
  destruct (prepared p cmd) as [argv bodyIndex].
  cbn [isInvocation buildArgs Pi.piSpec].
  destruct (Pi.isInvocation argv); [| done].
  rewrite !buildArgs_noPrefix.
  - cbn [ctx_format ctx_argv]. f_equal.
    unfold agentCfgOf, withoutSystemPrompt. cbn.
    by destruct (agent (reply p)).
  - left. cbn. by rewrite Honce, Hsent.
  - left. cbn. by rewrite Honce, Hsent.
Qed.

End Prepared.

End ArgvInvariants.

(** ** What every reply satisfies *)

Module ReplyInvariants.
Import Json Props JsFacts Agent CommandReply EngineFacts Invariants.

Section Outcomes.
Variable applyTemplate : string -> TemplateContext -> string.
Variable splitMediaFromOutput : string -> string * option (list string).
Variable getAgentSpec : AgentKind -> AgentSpec.
Variable enqueueCommand : EnqueueRunner.
Variable runPiRpc : RpcRequest -> RunOutcome.
Variable fs_stat : string -> StatResult.
Variable path_resolve : string -> string.

Local Abbreviation runReply :=
  (runCommandReply applyTemplate splitMediaFromOutput getAgentSpec
     enqueueCommand runPiRpc fs_stat path_resolve).
Local Abbreviation queued :=
  (enqueuedRun applyTemplate getAgentSpec enqueueCommand runPiRpc).
Local Abbreviation resolved :=
  (onResolved splitMediaFromOutput fs_stat path_resolve).

(** X14.  A non-zero exit code.  The reply is one payload; its text names the
    exit code, the signal when there is one, and the first 500 code units
    of the trimmed stdout, followed by an ellipsis when it was cut; what
    the agent's parser found is not sent. *)
Theorem X14_nonzero_exit_reports_excerpt p cmd r c :
  command (reply p) = Some cmd -> cmd <> [] ->
  outcome (queued p cmd) = Resolved r ->
  code r = Some c -> c <> 0%Z ->
  exists res t,
    runReply p = Returns res /\ payloads res = [textPayload t] /\
    Js.includes ("exited with code " +:+ Js.numberToString c) t = true /\
    (forall s, signal r = Some s -> s <> "" ->
               Js.includes ("(" +:+ s +:+ ")") t = true) /\
    (Js.trim (stdout r) <> "" ->
     (String.length (Js.slice0 500 (Js.trim (stdout r))) <= 500)%nat /\
     String.prefix (Js.slice0 500 (Js.trim (stdout r))) (Js.trim (stdout r))
       = true /\
     exists head,
       t = head +:+ "Output: " +:+ Js.slice0 500 (Js.trim (stdout r)) +:+
           (if (500 <? String.length (Js.trim (stdout r)))%nat
            then "..." else "")).
Proof.
  intros Hc Hne Ho Hcode Hnz.
  rewrite (runCommandReply_nonEmpty _ _ _ _ _ _ _ p cmd Hc Hne), Ho.
  unfold onResolved. rewrite Hcode.
  assert (Hb : negb (default 0 (Some c) =? 0)%Z = true).
  { apply negb_true_iff, Z.eqb_neq. done. }
  rewrite Hb. cbn [payloads codeText].
  eexists _, _. split; [reflexivity|]. split; [reflexivity|].
  split; [| split].
  - apply includes_weaken_l.
    change " Command exited with code "
      with (" Command " +:+ "exited with code ").
    rewrite append_assoc. apply includes_weaken_l.
    rewrite <- append_assoc. apply includes_append_l.
  - intros s Hs Hs'. rewrite Hs. apply nonEmpty_true in Hs'. rewrite Hs'.
    do 3 apply includes_weaken_l. apply includes_weaken_r.
    change (" (" +:+ s +:+ ")") with (" " +:+ ("(" +:+ s +:+ ")")).
    apply includes_append_r.
  - intros Ht. split; [apply slice0_length|]. split; [apply slice0_prefix|].
    apply nonEmpty_true in Ht. rewrite Ht.
    exists (warningSign +:+ " Command exited with code " +:+
            Js.numberToString c +:+
            match signal r with
            | Some s => if Js.nonEmpty s then " (" +:+ s +:+ ")" else ""
            | None => ""
            end +:+ String "010" (String "010" "")).
    rewrite !append_assoc. reflexivity.
Qed.

(** X15.  A failure that is not a timeout.  When the run is rejected with an
    error that is neither marked killed nor signalled SIGKILL, the reply is
    one payload whose text ends with the message of the error. *)
Theorem X15_rejected_run_reports_message p cmd e :
  command (reply p) = Some cmd -> cmd <> [] ->
  outcome (queued p cmd) = Rejected e ->
  err_killed e <> Some true -> err_signal e <> Some "SIGKILL" ->
  exists res,
    runReply p = Returns res /\
    payloads res =
      [textPayload (warningSign +:+ " Command failed: " +:+ err_message e)] /\
    exitCode (meta res) = None /\ agentMeta (meta res) = None.
Proof.
  intros Hc Hne Ho Hk Hs.
  rewrite (runCommandReply_nonEmpty _ _ _ _ _ _ _ p cmd Hc Hne), Ho.
  unfold onRejected.
  assert (Hno : timeoutHit e = false).
  { destruct (timeoutHit e) eqn:H; [| done].
    apply timeoutHit_true in H as [H | H]; done. }
  rewrite Hno. by eexists.
Qed.

(** X16.  The meta of a resolved run.  Whatever branch is taken, the result
    reports the exit code, the signal and the killed flag of the run, the
    queue wait, and the meta of the parse of the trimmed stdout. *)
Theorem X16_resolved_run_meta p cmd r :
  command (reply p) = Some cmd -> cmd <> [] ->
  outcome (queued p cmd) = Resolved r ->
  exists res,
    runReply p = Returns res /\
    exitCode (meta res) = code r /\
    meta_signal (meta res) = signal r /\
    meta_killed (meta res) = killed r /\
    queuedMs (meta res) = fst <$> waited (queued p cmd) /\
    queuedAhead (meta res) = snd <$> waited (queued p cmd) /\
    agentMeta (meta res) =
      (if Js.nonEmpty (Js.trim (stdout r))
       then parsed ← parseOutput (getAgentSpec (agent_kind (agentCfgOf p)))
                        (Js.trim (stdout r));
            Agent.meta parsed
       else None).
Proof.
  intros Hc Hne Ho.
  rewrite (runCommandReply_nonEmpty _ _ _ _ _ _ _ p cmd Hc Hne), Ho.
  eexists. split; [reflexivity|]. unfold onResolved.
  destruct (negb _); [| destruct (_ && _)]; cbn [meta exitCode meta_signal
    meta_killed queuedMs queuedAhead agentMeta];
    by destruct (Js.nonEmpty (Js.trim (stdout r))).
Qed.

Lemma payloadOfItem_wellFormed cfg item payload :
  payloadOfItem fs_stat path_resolve cfg item = Some payload ->
  wellFormedPayload payload.
Proof.
  unfold payloadOfItem.
  destruct (Js.nonEmpty (item_text item)) eqn:Ht; cbn [orb].
  - intros [= <-]. split; [| split]; cbn; try done.
    intros [= H]. by rewrite H in Ht.
  - destruct (mediaOfItem _ _ _ _) as [[| u us]|]; try done.
    intros [= <-]. split; [| split]; cbn; try done.
    intros _. by eexists _, _.
Qed.

Lemma textPayload_wellFormed t : t <> "" -> wellFormedPayload (textPayload t).
Proof. intros Ht. split; [| split]; cbn; [congruence | done | done]. Qed.

(** X17.  No empty payload.  Every payload [runCommandReply] returns has a
    non-empty text or, without text, at least one media URL, and its
    [mediaUrl] is the first of its [mediaUrls]. *)
Theorem X17_payloads_well_formed p res payload :
  runReply p = Returns res -> payload ∈ payloads res ->
  wellFormedPayload payload.
Proof.
  unfold runCommandReply.
  destruct (command (reply p)) as [[| c cmd]|]; try discriminate.
  set (q := enqueuedRun _ _ _ _ _ _).
  destruct (outcome q) as [r | e | v] eqn:Ho; intros [= <-].
  - unfold onResolved.
    destruct (negb _) eqn:Hcode; [| destruct (_ && _) eqn:Hkill];
      cbn [payloads].
    + intros ->%list_elem_of_singleton. apply textPayload_wellFormed.
      by apply nonEmpty_append.
    + intros ->%list_elem_of_singleton. apply textPayload_wellFormed.
      by apply nonEmpty_append.
    + intros (item & _ & Hp)%list_elem_of_omap.
      by apply (payloadOfItem_wellFormed (reply p) item).
  - destruct (onRejected_payload p (waited q) e) as (t & Ht & Hne).
    rewrite Ht. intros ->%list_elem_of_singleton.
    by apply textPayload_wellFormed.
Qed.

End Outcomes.

End ReplyInvariants.

(** ** From the output of the run to the payloads *)

Module ReplyFlow.
Import Json Props JsFacts Agent CommandReply EngineFacts Invariants.

Lemma omap_cons_Some {A B} (f : A -> option B) x y (l : list A) :
  f x = Some y -> omap f (x :: l) = y :: omap f l.
Proof. intros H. cbn. by rewrite H. Qed.

Lemma omap_ext_all {A B} (f g : A -> option B) (l : list A) :
  (forall x, f x = g x) -> omap f l = omap g l.
Proof.
  intros H. apply list_omap_ext. induction l; by constructor.
Qed.

Section Flow.
Variable applyTemplate : string -> TemplateContext -> string.
Variable splitMediaFromOutput : string -> string * option (list string).
Variable getAgentSpec : AgentKind -> AgentSpec.
Variable enqueueCommand : EnqueueRunner.
Variable runPiRpc : RpcRequest -> RunOutcome.
Variable fs_stat : string -> StatResult.
Variable path_resolve : string -> string.

Local Abbreviation runReply :=
  (runCommandReply applyTemplate splitMediaFromOutput getAgentSpec
     enqueueCommand runPiRpc fs_stat path_resolve).
Local Abbreviation queued :=
  (enqueuedRun applyTemplate getAgentSpec enqueueCommand runPiRpc).
Local Abbreviation itemOf := (itemOfText splitMediaFromOutput).
Local Abbreviation itemsOf := (replyItemsOf splitMediaFromOutput).

Lemma item_text_itemOfText t :
  item_text (itemOf t) = fst (splitMediaFromOutput t).
Proof. unfold itemOfText. by destruct (splitMediaFromOutput t). Qed.

Lemma item_media_itemOfText t urls :
  item_media (itemOf t) = Some urls ->
  snd (splitMediaFromOutput t) = Some urls.
Proof.
  unfold itemOfText. destruct (splitMediaFromOutput t) as [c [[| u us]|]];
    cbn; congruence.
Qed.

(** Every reply item is the split of some text, or carries no media. *)
Lemma replyItemsOf_items p trimmed parsed item :
  item ∈ itemsOf p trimmed parsed ->
  (exists t, t <> "" /\ item = itemOf t) \/
  (item_media item = None /\ Js.nonEmpty (item_text item) = true).
Proof.
  unfold replyItemsOf.
  set (fromTexts := map _ _). set (fromTools := match verboseLevel p with
                                                 | Some verbose_on => _
                                                 | _ => _ end).
  assert (Hsplit : forall i, i ∈ fromTexts ++ fromTools ->
                             exists t, t <> "" /\ i = itemOf t).
  { intros i [Hi | Hi]%elem_of_app.
    - apply list_elem_of_fmap in Hi as (t & -> & Ht). exists t. split; [| done].
      destruct parsed as [r|]; [| by apply elem_of_nil in Ht].
      unfold trimmedNonEmpty, Js.filterBoolean in Ht.
      apply list_elem_of_In, filter_In in Ht as [_ Ht].
      by apply nonEmpty_true.
    - subst fromTools. destruct (verboseLevel p) as [[]|];
        try by apply elem_of_nil in Hi.
      apply list_elem_of_fmap in Hi as (t & -> & _). eexists. split; [| done].
      by apply nonEmpty_append. }
  destruct (fromTexts ++ fromTools) as [| i0 rest] eqn:Hitems.
  - clear Hsplit. destruct (Js.nonEmpty trimmed && negb (defined parsed)) eqn:Hraw.
    + apply andb_true_iff in Hraw as [Hraw _].
      destruct (Js.nonEmpty (item_text (itemOf trimmed)) ||
                defined (item_media (itemOf trimmed))).
      * intros ->%list_elem_of_singleton. left. exists trimmed.
        split; [by apply nonEmpty_true | done].
      * intros ->%list_elem_of_singleton. right. split; [done|].
        cbn [item_text]. by rewrite append_cons.
    + intros ->%list_elem_of_singleton. right. split; [done|].
      cbn [item_text]. by rewrite append_cons.
  - intros Hi. left. by apply Hsplit.
Qed.

Lemma replyItemsOf_nonEmpty p trimmed parsed : itemsOf p trimmed parsed <> [].
Proof.
  unfold replyItemsOf.
  destruct (_ ++ _) as [| i0 rest]; [| done].
  destruct (_ && _); [| done]. by destruct (_ || _).
Qed.

Lemma onResolved_payloads p agent q r :
  (exists t, t <> "" /\
     payloads (onResolved splitMediaFromOutput fs_stat path_resolve p agent q r)
     = [textPayload t]) \/
  (exists parsed,
     payloads (onResolved splitMediaFromOutput fs_stat path_resolve p agent q r)
     = omap (payloadOfItem fs_stat path_resolve (reply p))
         (itemsOf p (Js.trim (stdout r)) parsed)).
Proof.
  unfold onResolved.
  destruct (negb _); [| destruct (_ && _)]; cbn [payloads].
  - left. eexists. split; [| reflexivity]. by apply nonEmpty_append.
  - left. eexists. split; [| reflexivity]. by apply nonEmpty_append.
  - right. by eexists.
Qed.

(** A resolved run gives at least one payload when the media splitter
    never cleans a non-empty text away entirely. *)
Lemma onResolved_nonEmpty p agent q r :
  (forall t, t <> "" -> fst (splitMediaFromOutput t) <> "") ->
  payloads (onResolved splitMediaFromOutput fs_stat path_resolve p agent q r)
  <> [].
Proof.
  intros Hsplit.
  destruct (onResolved_payloads p agent q r)
    as [(t & _ & ->) | (parsed & ->)]; [done|].
  pose proof (replyItemsOf_nonEmpty p (Js.trim (stdout r)) parsed) as Hitems.
  destruct (itemsOf p (Js.trim (stdout r)) parsed) as [| item rest] eqn:Hi;
    [done|].
  assert (Hin : item ∈ itemsOf p (Js.trim (stdout r)) parsed).
  { rewrite Hi. by left. }
  assert (Htext : Js.nonEmpty (item_text item) = true).
  { apply replyItemsOf_items in Hin as [(t & Ht & ->) | [_ H]]; [| done].
    rewrite item_text_itemOfText. by apply nonEmpty_true, Hsplit. }
  assert (Hp : is_Some (payloadOfItem fs_stat path_resolve (reply p) item)).
  { unfold payloadOfItem. by rewrite Htext. }
  destruct Hp as [payload Hp]. by rewrite (omap_cons_Some _ _ _ _ Hp).
Qed.

(** X18.  No empty reply.  When the media splitter never cleans a
    non-empty text away entirely, every result [runCommandReply] returns
    holds at least one payload, whether the run resolved or was rejected
    with an error. *)
Theorem X18_reply_never_empty p res :
  (forall t, t <> "" -> fst (splitMediaFromOutput t) <> "") ->
  runCommandReply applyTemplate splitMediaFromOutput getAgentSpec
    enqueueCommand runPiRpc fs_stat path_resolve p = Returns res ->
  payloads res <> [].
Proof.
  intros Hsplit. unfold runCommandReply.
  destruct (command (reply p)) as [[| c cmd]|]; try discriminate.
  set (q := enqueuedRun _ _ _ _ _ _).
  destruct (outcome q) as [r | e | v]; intros [= <-].
  - by apply onResolved_nonEmpty.
  - by destruct (onRejected_payload p (waited q) e) as (t & -> & _).
Qed.


Lemma mediaOfItem_sub cfg item urls url :
  mediaOfItem fs_stat path_resolve cfg item = Some urls -> url ∈ urls ->
  exists found, candidateMedia cfg item = Some found /\ url ∈ found.
Proof.
  unfold mediaOfItem.
  destruct (candidateMedia cfg item) as [[| u us]|]; try done;
    destruct (mediaCap cfg) as [m|]; try done; intros [= <-] Hin.
  - by apply elem_of_nil in Hin.
  - by apply elem_of_nil in Hin.
  - eexists. split; [done|].
    by apply (filterMedia_sub fs_stat path_resolve _ (u :: us)) in Hin.
  - by eexists.
Qed.

(** X19.  Where the media of a reply come from.  Every media URL of a
    returned payload is the configured [reply.mediaUrl], or was found by
    the media splitter in a non-empty text; the engine adds none of its
    own. *)
Theorem X19_reply_media_provenance p res payload urls url :
  runCommandReply applyTemplate splitMediaFromOutput getAgentSpec
    enqueueCommand runPiRpc fs_stat path_resolve p = Returns res ->
  payload ∈ payloads res ->
  mediaUrls payload = Some urls -> url ∈ urls ->
  mediaUrl (reply p) = Some url \/
  exists t found,
    t <> "" /\ snd (splitMediaFromOutput t) = Some found /\ url ∈ found.
Proof.
  unfold runCommandReply.
  destruct (command (reply p)) as [[| c cmd]|]; try discriminate.
  set (q := enqueuedRun _ _ _ _ _ _).
  destruct (outcome q) as [r | e | v]; intros [= <-].
  - destruct (onResolved_payloads p
                (getAgentSpec (agent_kind (agentCfgOf p))) (waited q) r)
      as [(t & _ & ->) | (parsed & ->)].
    { by intros ->%list_elem_of_singleton. }
    intros (item & Hitem & Hp)%list_elem_of_omap Hm Hin.
    unfold payloadOfItem in Hp.
    destruct (_ || _); [| discriminate]. injection Hp as <-.
    cbn [mediaUrls] in Hm.
    destruct (mediaOfItem_sub _ _ _ _ Hm Hin) as (found & Hc & Hf).
    unfold candidateMedia in Hc.
    destruct (item_media item) as [m|] eqn:Hmedia.
    + injection Hc as ->.
      apply replyItemsOf_items in Hitem as [(t & Ht & ->) | [Hnone _]];
        [| congruence].
      right. exists t, found. split; [done|].
      split; [by apply item_media_itemOfText | done].
    + left. destruct (mediaUrl (reply p)) as [u|]; [| done].
      destruct (Js.nonEmpty u); [| done]. injection Hc as <-.
      by apply list_elem_of_singleton in Hf as ->.
  - destruct (onRejected_payload p (waited q) e) as (t & -> & _).
    by intros ->%list_elem_of_singleton.
Qed.

(** X20.  No cap, no file system.  Without a truthy [reply.mediaMaxMb] the
    result of [runCommandReply] does not depend on [fs.stat] or on
    [path.resolve]: no file is measured. *)
Theorem X20_uncapped_reply_ignores_file_system p
    (fs_stat' : string -> StatResult) (path_resolve' : string -> string) :
  mediaCap (reply p) = None ->
  runCommandReply applyTemplate splitMediaFromOutput getAgentSpec
    enqueueCommand runPiRpc fs_stat' path_resolve' p = runReply p.
Proof.
  intros Hcap. unfold runCommandReply.
  destruct (command (reply p)) as [[| c cmd]|]; try done.
  destruct (outcome _) as [r | e | v]; [| done | done].
  f_equal. unfold onResolved.
  destruct (negb _); [done|]. destruct (_ && _); [done|].
  f_equal. apply omap_ext_all. intros item.
  unfold payloadOfItem, mediaOfItem. by rewrite Hcap.
Qed.

Lemma replyItemsOf_quiet p trimmed parsed :
  verboseLevel p <> Some verbose_on ->
  itemsOf p trimmed
    ((fun r => {| texts := texts r; toolResults := None;
                  Agent.meta := Agent.meta r |}) <$> parsed) =
  itemsOf p trimmed parsed.
Proof.
  intros Hv. unfold replyItemsOf.
  destruct (verboseLevel p) as [[]|]; [by destruct parsed | done | by destruct parsed].
Qed.

(** X21.  Tool results stay private unless verbose is on.  When
    [verboseLevel] is not "on", the tool results the agent's parser found
    have no influence on what [runCommandReply] returns: an agent whose
    parser reports none gives the same result. *)
Theorem X21_quiet_reply_ignores_tool_results p :
  verboseLevel p <> Some verbose_on ->
  runCommandReply applyTemplate splitMediaFromOutput
    (fun k => withoutToolResults (getAgentSpec k))
    enqueueCommand runPiRpc fs_stat path_resolve p = runReply p.
Proof.
  intros Hv. unfold runCommandReply.
  destruct (command (reply p)) as [[| c cmd]|]; try done.
  change (enqueuedRun applyTemplate
            (fun k => withoutToolResults (getAgentSpec k))
            enqueueCommand runPiRpc p (c :: cmd))
    with (queued p (c :: cmd)).
  destruct (outcome _) as [r | e | v]; [| done | done].
  f_equal. unfold onResolved.
  cbn [withoutToolResults parseOutput].
  set (agent := getAgentSpec (agent_kind (agentCfgOf p))).
  destruct (Js.nonEmpty (Js.trim (stdout r))); [| done].
  rewrite (replyItemsOf_quiet p _ _ Hv).
  by destruct (parseOutput agent (Js.trim (stdout r))).
Qed.

End Flow.

End ReplyFlow.

(** ** The invariants and laws at concrete inputs *)

Module Scenes.
Import Json Props Agent CommandReply Fixture Invariants Scenarios.
Import ParserLaws BuildArgsFacts InvocationFacts ArgvInvariants ReplyInvariants
  ReplyFlow.

Lemma X1_witness_no_repeat :
  Agent.texts (Pi.parsePiJson parseKnown
                 (streamOf [helloLine; helloLine; render byeEvent])) =
    ["hello"; "bye"] /\
  "hello" <> "bye".
Proof.
  split; [reflexivity|].
  apply (X1_pi_texts_no_adjacent_repeat parseKnown
           (streamOf [helloLine; helloLine; render byeEvent]) 0 "hello" "bye");
    reflexivity.
Defined.

Lemma X4_witness_skips_noise :
  Pi.parsePiJson parseKnown
    (chunks helloLine (chunks "INFO starting" toolLine)) =
  Pi.parsePiJson parseKnown (chunks helloLine toolLine).
Proof.
  apply (X4_pi_parser_skips_noise parseKnown helloLine "INFO starting" toolLine);
    reflexivity.
Defined.

Lemma X5_witness_tool_provenance :
  Agent.toolResults (Pi.parsePiJson parseKnown twoTurns) = Some ["ls: ok"] /\
  exists line ev msg,
    line ∈ Pi.candidateLines twoTurns /\ parseKnown line = Returns ev /\
    toolMessage ev msg /\ messageText msg = Some "ls: ok".
Proof.
  split; [reflexivity|].
  apply (X5_pi_tool_results_provenance parseKnown twoTurns ["ls: ok"] "ls: ok");
    [reflexivity | apply list_elem_of_here].
Defined.

Lemma X6_witness_other_events :
  Pi.parsePiJson parseKnown
    (streamOf [helloLine; render updateEvent; toolLine]) =
  Pi.parsePiJson parseKnown (streamOf [helloLine; toolLine]).
Proof.
  apply (X6_pi_parser_ignores_other_events parseKnown
           [helloLine] (render updateEvent) [toolLine]).
  - apply Examples.singleLines_of. reflexivity.
  - intros ev msg H. vm_compute in H. injection H as <-.
    intros [[Hc | Hc] _]; vm_compute in Hc; discriminate.
  - intros ev msg H. vm_compute in H. injection H as <-.
    intros [[Hc | Hc] _]; vm_compute in Hc; discriminate.
Defined.

Lemma X7_witness_matcher_directory :
  Pi.isInvocation ["/usr/local/bin/pi"; "-p"; "hi"] = Pi.isInvocation ["pi"] /\
  Pi.isInvocation ["pi"; "-p"; "hi"] = Pi.isInvocation ["pi"] /\
  Pi.isInvocation [] = false.
Proof.
  apply (X7_pi_matcher_ignores_directory "/usr/local/bin" "pi" ["-p"; "hi"]);
    [reflexivity | discriminate].
Defined.

Lemma X8_witness_flags_once :
  Pi.buildArgs plainCtx = ["pi"; "-p"; "--mode"; "json"; "hi"] /\
  Pi.buildArgs (withArgv plainCtx (Pi.buildArgs plainCtx)) =
  Pi.buildArgs plainCtx.
Proof.
  split; [reflexivity|].
  apply (proj2 (X8_pi_buildArgs_adds_flags_once plainCtx)).
  right. reflexivity.
Defined.

Lemma X9_witness_identity_prefix :
  Pi.buildArgs prefixedCtx = ["pi"; prefixed "You are Clawd" "-p"; "hi"].
Proof.
  apply (X9_pi_buildArgs_identity_prefix prefixedCtx ["pi"] "hi" "You are Clawd");
    first [reflexivity | discriminate].
Defined.

Lemma X11_witness_body_is_last :
  fst (preparedArgv applyTemplate (paramsOf sessionConfig helloRun)
         ["claude"; "-p"; "{{Body}}"]) =
    ["claude"; "-p"; "--session-id"; "abc"; "hi"] /\
  snd (preparedArgv applyTemplate (paramsOf sessionConfig helloRun)
         ["claude"; "-p"; "{{Body}}"]) = 4%nat.
Proof.
  split; [reflexivity|].
  apply (X11_prepared_body_is_last applyTemplate (paramsOf sessionConfig helloRun)
           ["claude"; "-p"; "{{Body}}"]).
  discriminate.
Defined.

Lemma X12_witness_keeps_command :
  ["claude"; "-p"; "hi"] `sublist_of`
    fst (preparedArgv applyTemplate (paramsOf sessionConfig helloRun)
           ["claude"; "-p"; "{{Body}}"]) /\
  head (fst (preparedArgv applyTemplate (paramsOf sessionConfig helloRun)
               ["claude"; "-p"; "{{Body}}"])) = Some "claude".
Proof.
  destruct (X12_prepared_keeps_command applyTemplate
              (paramsOf sessionConfig helloRun) ["claude"; "-p"; "{{Body}}"])
    as [Hsub Hhead].
  split.
  - apply Hsub. right. left. reflexivity.
  - apply Hhead. cbn. lia.
Defined.

Lemma X13_witness_sent_once :
  finalArgvOf applyTemplate registry (laterTurn promptedConfig helloRun)
    piCommand = ["pi"; "-p"; "hi"] /\
  finalArgvOf applyTemplate registry (laterTurn promptedConfig helloRun)
    piCommand =
  finalArgvOf applyTemplate registry
    (withoutSystemPrompt (laterTurn promptedConfig helloRun)) piCommand.
Proof.
  split; [reflexivity|].
  apply (X13_system_prompt_sent_once applyTemplate registry parseKnown);
    reflexivity.
Defined.

Lemma X14_witness_exit_excerpt :
  exists res t,
    runWith statFails piConfig (Resolved exitResult) = Returns res /\
    payloads res = [textPayload t] /\
    Js.includes "exited with code 2" t = true /\
    Js.includes "(SIGTERM)" t = true /\
    exists head, t = head +:+ "Output: boom".
Proof.
  destruct (X14_nonzero_exit_reports_excerpt
              applyTemplate splitNoMedia registry idleQueue
              (fun _ => Resolved exitResult) statFails resolveInWork
              (paramsOf piConfig (Resolved exitResult)) piCommand
              exitResult 2%Z)
    as (res & t & Hr & Hp & Hcode & Hsig & Hout).
  - reflexivity.
  - discriminate.
  - reflexivity.
  - reflexivity.
  - discriminate.
  - exists res, t. split; [exact Hr|]. split; [exact Hp|].
    split; [exact Hcode|].
    split; [apply (Hsig "SIGTERM"); [reflexivity | discriminate]|].
    destruct Hout as (_ & _ & head & Ht); [discriminate|].
    exists head. exact Ht.
Defined.

Lemma X15_witness_rejected_message :
  exists res,
    runWith statFails piConfig (Rejected spawnError) = Returns res /\
    payloads res =
      [textPayload (warningSign +:+ " Command failed: spawn pi ENOENT")].
Proof.
  destruct (X15_rejected_run_reports_message
              applyTemplate splitNoMedia registry idleQueue
              (fun _ => Rejected spawnError) statFails resolveInWork
              (paramsOf piConfig (Rejected spawnError)) piCommand spawnError)
    as (res & Hr & Hp & _).
  - reflexivity.
  - discriminate.
  - reflexivity.
  - discriminate.
  - discriminate.
  - exists res. split; [exact Hr | exact Hp].
Defined.

Lemma X16_witness_run_meta :
  exists res,
    runWith statFails piConfig (Resolved exitResult) = Returns res /\
    exitCode (meta res) = Some 2%Z /\
    meta_signal (meta res) = Some "SIGTERM".
Proof.
  destruct (X16_resolved_run_meta
              applyTemplate splitNoMedia registry idleQueue
              (fun _ => Resolved exitResult) statFails resolveInWork
              (paramsOf piConfig (Resolved exitResult)) piCommand exitResult)
    as (res & Hr & Hcode & Hsig & _).
  - reflexivity.
  - discriminate.
  - reflexivity.
  - exists res. split; [exact Hr|]. split; [exact Hcode | exact Hsig].
Defined.

Lemma X17_witness_well_formed :
  runWith statFails (mediaConfig "http://example.org/a.png") helloRun =
    Returns {| payloads := [helloWith "http://example.org/a.png"];
               meta := {| queuedMs := None; queuedAhead := None;
                          exitCode := Some 0%Z; meta_signal := None;
                          meta_killed := Some false;
                          agentMeta :=
                            Some (Pi.metaOf helloBody) |} |} /\
  wellFormedPayload (helloWith "http://example.org/a.png").
Proof.
  split; [reflexivity|].
  eapply (X17_payloads_well_formed
            applyTemplate splitNoMedia registry idleQueue
            (fun _ => helloRun) statFails resolveInWork
            (paramsOf (mediaConfig "http://example.org/a.png") helloRun)).
  - reflexivity.
  - apply list_elem_of_here.
Defined.

Lemma X18_witness_never_empty :
  runWith statFails piConfig helloRun =
    Returns {| payloads := [textPayload "hello"];
               meta := {| queuedMs := None; queuedAhead := None;
                          exitCode := Some 0%Z; meta_signal := None;
                          meta_killed := Some false;
                          agentMeta := Some (Pi.metaOf helloBody) |} |} /\
  [textPayload "hello"] <> [].
Proof.
  split; [reflexivity|].
  apply (X18_reply_never_empty
           applyTemplate splitNoMedia registry idleQueue
           (fun _ => helloRun) statFails resolveInWork
           (paramsOf piConfig helloRun)
           {| payloads := [textPayload "hello"];
              meta := {| queuedMs := None; queuedAhead := None;
                         exitCode := Some 0%Z; meta_signal := None;
                         meta_killed := Some false;
                         agentMeta := Some (Pi.metaOf helloBody) |} |}).
  - intros t Ht. exact Ht.
  - reflexivity.
Defined.



Lemma X19_witness_media_provenance :
  mediaUrl (mediaConfig "http://example.org/a.png") =
    Some "http://example.org/a.png" \/
  exists t found,
    t <> "" /\ snd (splitNoMedia t) = Some found /\
    "http://example.org/a.png" ∈ found.
Proof.
  eapply (X19_reply_media_provenance
            applyTemplate splitNoMedia registry idleQueue
            (fun _ => helloRun) statFails resolveInWork
            (paramsOf (mediaConfig "http://example.org/a.png") helloRun)
            _ (helloWith "http://example.org/a.png")
            ["http://example.org/a.png"]).
  - reflexivity.
  - apply list_elem_of_here.
  - reflexivity.
  - apply list_elem_of_here.
Defined.

Lemma X20_witness_uncapped :
  runWith statTwoFiles (mediaConfig "big.png") helloRun =
  runWith statFails (mediaConfig "big.png") helloRun.
Proof.
  apply (X20_uncapped_reply_ignores_file_system
           applyTemplate splitNoMedia registry idleQueue
           (fun _ => helloRun) statFails resolveInWork
           (paramsOf (mediaConfig "big.png") helloRun)
           statTwoFiles resolveInWork).
  reflexivity.
Defined.

Lemma X21_witness_quiet :
  runCommandReply applyTemplate splitNoMedia
    (fun k => withoutToolResults (registry k)) idleQueue
    (fun _ => Resolved (okResult twoTurns)) statFails resolveInWork
    (paramsOf piConfig (Resolved (okResult twoTurns))) =
  runWith statFails piConfig (Resolved (okResult twoTurns)).
Proof.
  apply (X21_quiet_reply_ignores_tool_results
           applyTemplate splitNoMedia registry idleQueue
           (fun _ => Resolved (okResult twoTurns)) statFails resolveInWork
           (paramsOf piConfig (Resolved (okResult twoTurns)))).
  discriminate.
Defined.

End Scenes.
